(** * THW-scikit-learn: the data preparation and evaluation cells

    A shallow embedding of the code cells of [classification.ipynb] and of
    the regression notebook that carry logic of their own: parsing the
    comma-delimited [Issue] column, dropping unlabelled rows, binarizing the
    label lists, splitting into training and held-out parts, scoring the
    agreement of predictions, and picking the best grid-search entry.

    Rows read by [csv.DictReader] are dictionaries from column names to
    values; a cell that indexes a missing column or calls a string method on
    something that is not a string raises, which is modelled by [result].
    A string is the sequence of its UTF-8 bytes: cutting at the comma and
    ordering byte by byte agree with what Python does on the characters. *)

From Stdlib Require Import Ascii QArith Qround Lqa.
From stdpp Require Import base option list sorting strings gmap.

Local Open Scope string_scope.
Local Open Scope list_scope.

(** ** Python values and exceptions *)

(** What a cell of a row can hold: [None] (a short CSV line), a string (as
    read), or a list of strings (after the label cell has run). *)
Inductive value :=
  | VNone
  | VStr (s : string)
  | VList (l : list string).

Inductive exn :=
  | KeyError (k : string)
  | AttributeError
  | TypeError
  | IndexError
  | ValueError.

Inductive result (A : Type) :=
  | Ok (a : A)
  | Raise (e : exn).
Arguments Ok {A} a.
Arguments Raise {A} e.

#[global] Instance result_ret : MRet result := fun A a => Ok a.
#[global] Instance result_bind : MBind result := fun A B f m =>
  match m with
  | Ok a => f a
  | Raise e => Raise e
  end.

(** [d[k]] on a row. *)
Definition getitem (i : gmap string value) (k : string) : result value :=
  match i !! k with
  | Some v => Ok v
  | None => Raise (KeyError k)
  end.

(** Truth value of an object in a condition. *)
Definition truthy (v : value) : bool :=
  match v with
  | VNone => false
  | VStr s => negb (String.eqb s "")
  | VList l => negb (bool_decide (l = []))
  end.

(** [s.split(sep)] for a one-character separator: the pieces between the
    occurrences of [sep], of which there is always at least one. *)
Fixpoint split (sep : Ascii.ascii) (s : string) : list string :=
  match s with
  | EmptyString => [EmptyString]
  | String c s' =>
      if Ascii.eqb c sep then EmptyString :: split sep s'
      else match split sep s' with
           | [] => [String c EmptyString]
           | t :: ts => String c t :: ts
           end
  end.

(** [sep.join(l)]. *)
Fixpoint join (sep : string) (l : list string) : string :=
  match l with
  | [] => ""
  | [t] => t
  | t :: ts => t +:+ sep +:+ join sep ts
  end.

(** ** Cell "turn labels into a list" *)

(** [[x for x in issues if x != 'Other' and x != 'General']] *)
Definition keep_informative (issues : list string) : list string :=
  filter (fun x => x ≠ "Other" ∧ x ≠ "General") issues.

(** The body of the loop, on one row [i]: the row is updated in place. *)
Definition label_row (i : gmap string value) : result (gmap string value) :=
  v ← getitem i "Issue";
  match v with
  | VStr s =>
      let issues := split ","%char s in
      Ok (<["Issue" := VList (keep_informative issues)]> i)
  | _ => Raise AttributeError
  end.

(** [for i in recs: ...] *)
Definition label_cell (recs : list (gmap string value))
  : result (list (gmap string value)) :=
  mapM label_row recs.

(** ** Cell "remove texts with no label" *)

(** [[i for i in recs if i['Issue']]] *)
Fixpoint rec_sub (recs : list (gmap string value))
  : result (list (gmap string value)) :=
  match recs with
  | [] => Ok []
  | i :: recs' =>
      v ← getitem i "Issue";
      rest ← rec_sub recs';
      Ok (if truthy v then i :: rest else rest)
  end.

(** ** Cells "turn into a dataframe" and "extract text and label data" *)

(** [DataFrame(rows)[col].values]: the column exists when some row has it,
    and a row without it contributes a missing value. *)
Definition column (col : string) (rows : list (gmap string value))
  : result (list value) :=
  if bool_decide (Exists (fun i => is_Some (i !! col)) rows)
  then Ok ((fun i => default VNone (i !! col)) <$> rows)
  else Raise (KeyError col).

(** The notebook up to [labels = data['Issue'].values]: the rows that are
    kept, their texts and their label entries. *)
Definition load_and_preprocess (recs : list (gmap string value))
  : result (list value * list value) :=
  recs1 ← label_cell recs;
  kept ← rec_sub recs1;
  text ← column "Text" kept;
  labels ← column "Issue" kept;
  Ok (text, labels).

(** ** Cell "binarize labels" *)

(** A byte that continues a character of more than one byte (its two high
    bits are 1 and 0). *)
Definition is_continuation (c : Ascii.ascii) : bool :=
  match c with
  | Ascii.Ascii _ _ _ _ _ _ b6 b7 => b7 && negb b6
  end.

(** The characters of a string, from its end: the continuation bytes that
    wait for their first byte, and the characters after them. *)
Fixpoint characters_from (s : string) : string * list string :=
  match s with
  | EmptyString => (EmptyString, [])
  | String c s' =>
      let '(pending, chars) := characters_from s' in
      if is_continuation c then (String c pending, chars)
      else (EmptyString, String c pending :: chars)
  end.

(** [list(s)]: the characters of a string, each with all its bytes. *)
Definition characters (s : string) : list string :=
  let '(pending, chars) := characters_from s in
  match pending with
  | EmptyString => chars
  | _ => pending :: chars
  end.

(** Iterating over one entry of [labels]: a list gives its items, a string
    its characters, a missing value is not iterable. *)
Definition iter_labels (v : value) : result (list string) :=
  match v with
  | VList l => Ok l
  | VStr s => Ok (characters s)
  | VNone => Raise TypeError
  end.

(** Modelled from the spec: [MultiLabelBinarizer] is the library's class and
    its code is not part of the notebooks. Section 4.2 of the specification
    describes it: the vocabulary is the sorted distinct labels of all records,
    and each record becomes a vector over the vocabulary with 1 at the
    positions of the labels it holds and 0 elsewhere. Strings are ordered as
    Python orders them, by character code, a proper prefix first. *)
Record MultiLabelBinarizer := { classes_ : option (list string) }.

(** Modelled from the spec: the sorted distinct label vocabulary. *)
Definition vocabulary (y : list (list string)) : list string :=
  merge_sort String.le (remove_dups (mjoin y)).

(** Modelled from the spec: the indicator vector of one label collection. *)
Definition indicator (classes : list string) (labels : list string) : list Z :=
  (fun c => if bool_decide (c ∈ labels) then 1%Z else 0%Z) <$> classes.

(** Modelled from the spec: [mlb.fit_transform(y)] learns the vocabulary
    from [y], stores it in [mlb.classes_] and returns the indicator matrix. *)
Definition fit_transform (mlb : MultiLabelBinarizer) (y : list (list string))
  : list (list Z) * MultiLabelBinarizer :=
  let classes := vocabulary y in
  (indicator classes <$> y, {| classes_ := Some classes |}).

(** [mlb = MultiLabelBinarizer()] *)
Definition new_mlb : MultiLabelBinarizer := {| classes_ := None |}.

(** [labels_binary = mlb.fit_transform(labels)] *)
Definition binarize_cell (labels : list value)
  : result (list (list Z) * MultiLabelBinarizer) :=
  y ← mapM iter_labels labels;
  Ok (fit_transform new_mlb y).

(** [label_names = list(mlb.classes_)] *)
Definition label_names (mlb : MultiLabelBinarizer) : result (list string) :=
  match classes_ mlb with
  | Some classes => Ok classes
  | None => Raise AttributeError
  end.

(** The report loop decodes an indicator row with a boolean mask:
    [np.array(label_names)[label == 1]]. The mask must be as long as the
    array it indexes, except that an empty mask is taken and selects
    nothing. *)
Definition decode (names : list string) (label : list Z) : result (list string) :=
  if bool_decide (length label = length names ∨ label = [])
  then Ok (fst <$> filter (fun p => snd p = 1%Z) (zip names label))
  else Raise IndexError.

(** The classification notebook from the rows read to the binarized labels:
    texts, indicator matrix and label names. *)
Definition prepare (recs : list (gmap string value))
  : result (list value * list (list Z) * list string) :=
  '(text, labels) ← load_and_preprocess recs;
  '(labels_binary, mlb) ← binarize_cell labels;
  names ← label_names mlb;
  Ok (text, labels_binary, names).

(** ** Cells "get training + test data" *)

(** Modelled from the spec: [train_test_split] and the generator that drives
    it belong to the library and are not part of the notebooks. Section 4.3
    of the specification describes the split as a pseudo-random assignment
    driven by a seed and a target evaluation fraction. The generator is an
    interface: a state, a way to make a state from a seed, and a draw of a
    permutation of [0 .. n-1] that returns the state it leaves behind. *)
Class Generator := {
  rng : Type;
  seed_rng : Z → rng;
  permutation : rng → nat → list nat * rng;
  permutation_Permutation g n : fst (permutation g n) ≡ₚ seq 0 n
}.

(** [a[ind]] for an array of rows and an array of positions. *)
Definition take_rows {A} (a : list A) (ind : list nat) : result (list A) :=
  mapM (fun i => match a !! i with
                 | Some x => Ok x
                 | None => Raise IndexError
                 end) ind.

Section split.
Context {G : Generator}.

(** Modelled from the spec: the generator a call works with is a fresh one
    made from [random_state] when the caller gives a seed, and the
    process-wide generator [g] when the caller gives none. *)
Definition check_random_state (random_state : option Z) (g : rng) : rng :=
  match random_state with
  | Some seed => seed_rng seed
  | None => g
  end.

(** Modelled from the spec: the size of the evaluation part is the
    requested fraction of the number of records, rounded up; the size of
    the training part is the rest, or the requested training fraction
    rounded down when the caller gives one. *)
Definition n_test_of (test_size : Q) (n : nat) : nat :=
  Z.to_nat (Qceiling (test_size * inject_Z (Z.of_nat n))).

Definition n_train_of (train_size : option Q) (n n_test : nat) : nat :=
  match train_size with
  | Some t => Z.to_nat (Qfloor (t * inject_Z (Z.of_nat n)))
  | None => n - n_test
  end.

(** Modelled from the spec: the positions of the training and of the
    evaluation part, taken from one permutation of the positions, and the
    process-wide generator after the call. *)
Definition split_indices (n : nat) (test_size : Q) (train_size : option Q)
    (random_state : option Z) (g : rng) : list nat * list nat * rng :=
  let n_test := n_test_of test_size n in
  let n_train := n_train_of train_size n n_test in
  let '(perm, r) := permutation (check_random_state random_state g) n in
  let ind_test := take n_test perm in
  let ind_train := take n_train (drop n_test perm) in
  (ind_train, ind_test, if random_state is Some _ then g else r).

(** Modelled from the spec: [train_test_split(X, y, test_size=...,
    train_size=..., random_state=...)], run with process-wide generator
    [g]: both arrays are cut at the same positions. *)
Definition train_test_split {A B} (X : list A) (y : list B)
    (test_size : Q) (train_size : option Q) (random_state : option Z)
    (g : rng) : result (list A * list A * list B * list B) * rng :=
  let n := length X in
  let n_test := n_test_of test_size n in
  let n_train := n_train_of train_size n n_test in
  if bool_decide (length y ≠ n) then (Raise ValueError, g)
  else if bool_decide (n < n_train + n_test)%nat then (Raise ValueError, g)
  else
    let '(ind_train, ind_test, g') :=
      split_indices n test_size train_size random_state g in
    (X_train ← take_rows X ind_train;
     X_test ← take_rows X ind_test;
     y_train ← take_rows y ind_train;
     y_test ← take_rows y ind_test;
     Ok (X_train, X_test, y_train, y_test), g').

(** [cross_validation.train_test_split(text, labels_binary, test_size=0.2,
    random_state=40)] in the classification notebook. *)
Definition classification_split {A B} (text : list A) (labels_binary : list B)
    (g : rng) : result (list A * list A * list B * list B) * rng :=
  train_test_split text labels_binary (2 # 10) None (Some 40%Z) g.

(** [train_test_split(boston.data, boston.target, train_size=0.75,
    test_size=0.25)] in the regression notebook: no [random_state]. *)
Definition regression_split {A B} (data : list A) (target : list B)
    (g : rng) : result (list A * list A * list B * list B) * rng :=
  train_test_split data target (25 # 100) (Some (75 # 100)) None g.
End split.

(** A small generator to run the split on: a linear congruential step, and
    a shuffle that inserts each position at a drawn place of the positions
    already placed. *)
Definition lcg_next (g : Z) : Z := ((1103515245 * g + 12345) mod 2147483648)%Z.

Fixpoint shuffle_from (g : Z) (todo : list nat) (acc : list nat)
  : list nat * Z :=
  match todo with
  | [] => (acc, g)
  | i :: todo' =>
      let g' := lcg_next g in
      let k := Z.to_nat (g' mod (Z.of_nat (length acc) + 1)) in
      shuffle_from g' todo' (take k acc ++ i :: drop k acc)
  end.

#[global, program] Instance lcg : Generator := {|
  rng := Z;
  seed_rng := fun seed => seed;
  permutation := fun g n => shuffle_from g (seq 0 n) []
|}.
Next Obligation.
  intros g n.
  enough (∀ todo g acc, fst (shuffle_from g todo acc) ≡ₚ acc ++ todo) as Hgen
    by apply Hgen.
  clear. intros todo. induction todo as [|i todo IH]; intros g acc; simpl.
  - by rewrite app_nil_r.
  - rewrite IH, <-(Permutation_middle (take _ acc)), take_drop.
    by rewrite <-Permutation_middle.
Qed.

(** ** Cell "mean agreement" *)

(** A mean of floats: not a number when there is nothing to average. The
    averages taken here are ratios of two counts and are kept exact. *)
Inductive score :=
  | NaN
  | Score (q : Q).

(** The cells of [predicted == y_test], row by row. The two arrays have one
    row per held-out record and one column per class; arrays of different
    shapes are not compared cell by cell and are left out of the model. *)
Definition array_eq (predicted y_test : list (list Z)) : result (list bool) :=
  if bool_decide (length <$> predicted = length <$> y_test)
  then Ok (mjoin (zip_with (zip_with Z.eqb) predicted y_test))
  else Raise ValueError.

(** [np.mean] of an array of booleans: the share of [True] cells. *)
Definition np_mean (cells : list bool) : score :=
  match cells with
  | [] => NaN
  | _ => Score (inject_Z (Z.of_nat (length (filter (fun b => b = true) cells)))
                / inject_Z (Z.of_nat (length cells)))
  end.

(** [np.mean(predicted == y_test)] *)
Definition mean_agreement (predicted y_test : list (list Z)) : result score :=
  cells ← array_eq predicted y_test;
  Ok (np_mean cells).

(** ** Cell "what are the best parameters?" *)

(** The scan behind [max(iterable, key=...)]: the running best is replaced
    only by an item whose key is strictly greater. *)
Fixpoint max_from {A} (key : A → Q) (best : A) (rest : list A) : A :=
  match rest with
  | [] => best
  | x :: rest' =>
      max_from key (if Qlt_le_dec (key best) (key x) then x else best) rest'
  end.

(** [max(l, key=key)]; an empty argument raises. *)
Definition py_max {A} (key : A → Q) (l : list A) : result A :=
  match l with
  | [] => Raise ValueError
  | x :: rest => Ok (max_from key x rest)
  end.

(** [best_parameters, score, _ = max(gs_clf.grid_scores_, key=lambda x: x[1])]
    on the entries of [grid_scores_], which are triples of a parameter
    setting, its mean validation score and its scores per fold. *)
Definition best_of {P} (grid_scores_ : list (P * Q * list Q)) : result (P * Q) :=
  '(best_parameters, score, _) ← py_max (fun x => snd (fst x)) grid_scores_;
  Ok (best_parameters, score).

(** A value of a pipeline option in the grid: an n-gram range or a flag. *)
Inductive option_value :=
  | Range (lo hi : nat)
  | Flag (b : bool).

(** [parameters] of the grid-search cell. *)
Definition parameters : list (string * list option_value) :=
  [ ("tfidf__use_idf", [Flag true; Flag false]);
    ("vect__ngram_range", [Range 1 1; Range 1 2; Range 1 3]) ].

(** Modelled from the spec: the combinations of a parameter grid, one value
    per named option (section 4.6); the search itself is the library's. *)
Fixpoint ParameterGrid (grid : list (string * list option_value))
  : list (gmap string option_value) :=
  match grid with
  | [] => [∅]
  | (name, candidates) :: grid' =>
      v ← candidates; (fun params => <[name := v]> params) <$> ParameterGrid grid'
  end.

(** Modelled from the spec: [grid_scores_] after the search, given the mean
    held-out score and the per-fold scores that cross-validation finds for
    each combination (section 4.6). *)
Definition grid_scores_of (grid : list (string * list option_value))
    (mean_score : gmap string option_value → Q)
    (fold_scores : gmap string option_value → list Q)
  : list (gmap string option_value * Q * list Q) :=
  (fun params => (params, mean_score params, fold_scores params))
    <$> ParameterGrid grid.

(** ** Cell that prints the predicted labels of the first documents *)




(** ** Cell that prints the best parameters *)




(** ** Predicates and examples used in the statements *)

(** The rows that can be labelled are those whose [Issue] is a string. *)
Definition has_issue_string (i : gmap string value) : Prop :=
  ∃ s, i !! "Issue" = Some (VStr s).

(** What [rec_sub] keeps, as a filter on the rows. *)
Definition labelled (i : gmap string value) : Prop :=
  truthy (default VNone (i !! "Issue")) = true.

(** A token without a comma. *)
Definition no_comma (s : string) : Prop :=
  Forall (fun c => c ≠ ","%char) (String.list_ascii_of_string s).

(** The three rows of the specification's example. *)
Definition example_recs : list (gmap string value) :=
  [ {[ "Text" := VStr "freedom of speech violation";
       "Issue" := VStr "Civil and Political Rights" ]};
    {[ "Text" := VStr "unfair trial";
       "Issue" := VStr "Civil and Political Rights,Judicial System" ]};
    {[ "Text" := VStr "no labels here";
       "Issue" := VStr "Other" ]} ].

(** The example rows after the label cell, and those the drop cell keeps. *)
Definition example_labelled : list (gmap string value) :=
  [ {[ "Text" := VStr "freedom of speech violation";
       "Issue" := VList ["Civil and Political Rights"] ]};
    {[ "Text" := VStr "unfair trial";
       "Issue" := VList ["Civil and Political Rights"; "Judicial System"] ]};
    {[ "Text" := VStr "no labels here";
       "Issue" := VList [] ]} ].

Definition example_kept : list (gmap string value) := take 2 example_labelled.

(** Three grid-search entries, two of them with the best score. *)
Definition example_grid_scores : list (string * Q * list Q) :=
  [ ("a", 1 # 2, [1 # 2; 1 # 2]);
    ("b", 3 # 4, [1 # 2; 1 # 1]);
    ("c", 3 # 4, [3 # 4; 3 # 4]) ].

(** A row with an empty label field, before and after the label cell. *)
Definition example_empty_row : gmap string value :=
  {[ "Text" := VStr "unlabelled"; "Issue" := VStr "" ]}.

Definition example_empty_labelled : list (gmap string value) :=
  [ {[ "Text" := VStr "unlabelled"; "Issue" := VList [""] ]} ].

(** A row whose field names a label twice, before and after the label cell. *)
Definition example_repeated : list (gmap string value) :=
  [ {[ "Text" := VStr "twice"; "Issue" := VStr "A,Other,A" ]} ].

Definition example_repeated_labelled : list (gmap string value) :=
  [ {[ "Text" := VStr "twice"; "Issue" := VList ["A"; "A"] ]} ].

(** * Properties *)

Example example_prepare :
  prepare example_recs =
  Ok ([VStr "freedom of speech violation"; VStr "unfair trial"],
      [[1; 0]; [1; 1]]%Z,
      ["Civil and Political Rights"; "Judicial System"]).
Proof. vm_compute. reflexivity. Qed.

(** ** Facts about the error monad *)

Lemma bind_Ok {A B} (f : A → result B) (m : result A) (b : B) :
  m ≫= f = Ok b ↔ ∃ a, m = Ok a ∧ f a = Ok b.
Proof.
  destruct m as [a|e]; simpl; split.
  - intros H. by exists a.
  - by intros (a' & [= ->] & H).
  - discriminate.
  - by intros (a' & ? & _).
Qed.

Lemma mapM_Ok {A B} (f : A → result B) (l : list A) (k : list B) :
  mapM f l = Ok k ↔ Forall2 (fun x y => f x = Ok y) l k.
Proof.
  revert k. induction l as [|x l IH]; intros k; simpl.
  - split.
    + intros [= <-]. constructor.
    + by inversion 1.
  - rewrite bind_Ok. split.
    + intros (y & Hy & H). apply bind_Ok in H as (k' & Hk' & [= <-]).
      constructor; [done|]. by apply IH.
    + inversion 1 as [|? y ? k' Hy Hk']; subst.
      exists y. split; [done|]. apply bind_Ok. exists k'.
      split; [by apply IH|done].
Qed.

Lemma mapM_Ok_total {A B} (f : A → result B) (l : list A) :
  Forall (fun x => ∃ y, f x = Ok y) l → ∃ k, mapM f l = Ok k.
Proof.
  induction 1 as [|x l [y Hy] _ [k Hk]].
  - by exists [].
  - exists (y :: k). apply mapM_Ok. constructor; [done|]. by apply mapM_Ok.
Qed.

Lemma getitem_Ok (i : gmap string value) k v :
  getitem i k = Ok v ↔ i !! k = Some v.
Proof. unfold getitem. destruct (i !! k); naive_solver. Qed.

(** ** The label cell and the drop of unlabelled rows *)

Lemma split_nonempty sep s : split sep s ≠ [].
Proof.
  destruct s as [|c s]; simpl; [done|].
  destruct (Ascii.eqb c sep); [done|]. by destruct (split sep s).
Qed.

Lemma label_row_Ok (i i' : gmap string value) :
  label_row i = Ok i' ↔
  ∃ s, i !! "Issue" = Some (VStr s) ∧
       i' = <["Issue" := VList (keep_informative (split "," s))]> i.
Proof.
  unfold label_row. rewrite bind_Ok. setoid_rewrite getitem_Ok. split.
  - intros ([| s | l] & Hv & H); try discriminate.
    injection H as <-. by exists s.
  - intros (s & Hs & ->). by exists (VStr s).
Qed.

Lemma label_cell_total recs :
  Forall has_issue_string recs → ∃ recs1, label_cell recs = Ok recs1.
Proof.
  intros H. apply mapM_Ok_total. eapply Forall_impl; [exact H|].
  intros i [s Hs]. eexists. apply label_row_Ok. by exists s.
Qed.

Lemma label_cell_labelled recs recs1 :
  label_cell recs = Ok recs1 →
  Forall (fun i => ∃ l, i !! "Issue" = Some (VList l)) recs1.
Proof.
  intros H%mapM_Ok. induction H as [|i i' ? ? Hi _ IH]; constructor; [|done].
  apply label_row_Ok in Hi as (s & _ & ->). eexists. apply lookup_insert_eq.
Qed.

Lemma rec_sub_Ok recs kept :
  rec_sub recs = Ok kept →
  Forall (fun i => is_Some (i !! "Issue")) recs ∧ kept = filter labelled recs.
Proof.
  revert kept. induction recs as [|i recs IH]; intros kept; simpl.
  - by intros [= <-].
  - intros (v & Hv%getitem_Ok & (rest & Hrest & [= <-])%bind_Ok)%bind_Ok.
    destruct (IH _ Hrest) as [Hall ->]. split.
    + constructor; [by eexists|done].
    + rewrite filter_cons.
      assert (labelled i ↔ truthy v = true) as Hl
        by (unfold labelled; by rewrite Hv).
      destruct (truthy v); case_decide; intuition congruence.
Qed.

Lemma rec_sub_total recs :
  Forall (fun i => is_Some (i !! "Issue")) recs → ∃ kept, rec_sub recs = Ok kept.
Proof.
  induction 1 as [|i recs [v Hv] _ [rest Hrest]]; simpl.
  - by eexists.
  - unfold getitem. rewrite Hv, Hrest. simpl. by eexists.
Qed.

Lemma truthy_VList l : truthy (VList l) = true ↔ l ≠ [].
Proof. simpl. rewrite negb_true_iff, bool_decide_eq_false. done. Qed.

(** C1. On the three example rows, the label cell followed by the drop of
    unlabelled rows removes the third row (its only label is the reserved
    token [Other]); the binarizer then yields the vocabulary
    [Civil and Political Rights; Judicial System] and the indicator rows
    [1;0] and [1;1] for the two rows that remain. *)
Theorem example_end_to_end :
  label_cell example_recs = Ok example_labelled ∧
  rec_sub example_labelled = Ok example_kept ∧
  example_kept = take 2 example_labelled ∧
  example_labelled !! 2%nat
    = Some {[ "Text" := VStr "no labels here"; "Issue" := VList [] ]} ∧
  prepare example_recs =
    Ok ([VStr "freedom of speech violation"; VStr "unfair trial"],
        [[1; 0]; [1; 1]]%Z,
        ["Civil and Political Rights"; "Judicial System"]).
Proof. repeat split; vm_compute; reflexivity. Qed.

(** A field all of whose pieces are reserved leaves no label. *)
Lemma keep_informative_nil (issues : list string) :
  keep_informative issues = [] ↔
  Forall (fun x => x = "Other" ∨ x = "General") issues.
Proof.
  unfold keep_informative. induction issues as [|x issues IH]; [done|].
  rewrite filter_cons, Forall_cons. case_decide as Hx.
  - split; [done|]. intros [[?|?] _]; by destruct Hx.
  - rewrite IH. split; [|by intros [_ ?]]. intros Hall. split; [|done].
    destruct (decide (x = "Other")) as [|Ho]; [by left|].
    destruct (decide (x = "General")) as [|Hg]; [by right|].
    by destruct Hx.
Qed.

(** C2. Whenever the label cell and the drop cell run to completion, every
    row that remains carries a non-empty label list; the rows that remain
    are the rows with a non-empty label list, in their original order; and a
    row whose label list became empty after the reserved tokens were
    discarded is not among them. From the rows as they were read: the row
    at a position whose label field holds nothing but [Other] and [General]
    gets the empty label list and is removed; a row whose field holds
    another piece keeps that piece as a label and remains; and every row
    that remains is the labelled form of a row that was read with such a
    piece, its other columns unchanged. *)
Theorem filtering_leaves_no_empty_label_set
    (recs recs1 kept : list (gmap string value)) :
  label_cell recs = Ok recs1 →
  rec_sub recs1 = Ok kept →
  Forall (fun i => ∃ l, i !! "Issue" = Some (VList l) ∧ l ≠ []) kept ∧
  (∀ i, i ∈ kept ↔
        i ∈ recs1 ∧ ∃ l, i !! "Issue" = Some (VList l) ∧ l ≠ []) ∧
  kept `sublist_of` recs1 ∧
  (∀ i, i ∈ recs1 → i !! "Issue" = Some (VList []) → i ∉ kept) ∧
  (∀ (n : nat) (i : gmap string value) s,
     recs !! n = Some i → i !! "Issue" = Some (VStr s) →
     ∃ i' : gmap string value,
       recs1 !! n = Some i' ∧
       (∀ k, k ≠ "Issue" → i' !! k = i !! k) ∧
       (Forall (fun x => x = "Other" ∨ x = "General") (split "," s) →
        i' !! "Issue" = Some (VList []) ∧ i' ∉ kept) ∧
       (∀ x, x ∈ split "," s → x ≠ "Other" → x ≠ "General" →
             i' ∈ kept ∧ ∃ l, i' !! "Issue" = Some (VList l) ∧ x ∈ l ∧
                              ("Other" ∉ l) ∧ ("General" ∉ l))) ∧
  (∀ i' : gmap string value, i' ∈ kept →
     ∃ (n : nat) (i : gmap string value) s x,
       recs !! n = Some i ∧ i !! "Issue" = Some (VStr s) ∧
       recs1 !! n = Some i' ∧ (∀ k, k ≠ "Issue" → i' !! k = i !! k) ∧
       x ∈ split "," s ∧ x ≠ "Other" ∧ x ≠ "General").
Proof.
  intros Hlab Hsub.
  pose proof (label_cell_labelled _ _ Hlab) as Hall.
  pose proof Hsub as [_ Hkept]%rec_sub_Ok.
  assert (∀ i, i ∈ recs1 →
            labelled i ↔ ∃ l, i !! "Issue" = Some (VList l) ∧ l ≠ []) as Heq.
  { intros i Hi. rewrite Forall_forall in Hall.
    destruct (Hall i Hi) as [l Hl]. unfold labelled. rewrite Hl.
    change (default VNone (Some (VList l))) with (VList l).
    rewrite truthy_VList. split.
    - intros Hne. by exists l.
    - by intros (l' & [= <-] & Hne). }
  assert (∀ i, i ∈ kept ↔
            i ∈ recs1 ∧ ∃ l, i !! "Issue" = Some (VList l) ∧ l ≠ []) as Hiff.
  { intros i. rewrite Hkept, list_elem_of_filter. split.
    - intros [Hl Hi]. split; [done|]. by apply Heq.
    - intros [Hi Hl]. split; [|done]. by apply Heq. }
  assert (∀ (n : nat) (i : gmap string value) s,
            recs !! n = Some i → i !! "Issue" = Some (VStr s) →
            recs1 !! n
            = Some (<["Issue" := VList (filter (fun x => x ≠ "Other" ∧ x ≠ "General")
                                          (split "," s))]> i)) as Hrow.
  { intros n i s Hn Hs. pose proof Hlab as HF%mapM_Ok.
    destruct (Forall2_lookup_l _ _ _ _ _ HF Hn) as (i' & Hn' & Hi').
    apply label_row_Ok in Hi' as (s' & Hs' & ->).
    assert (s' = s) as -> by congruence. exact Hn'. }
  split; [|split; [|split; [|split; [|split]]]].
  - apply Forall_forall. intros i Hi. by apply Hiff in Hi as [_ ?].
  - done.
  - rewrite Hkept. apply sublist_filter.
  - intros i Hi Hnil [_ (l & Hl & Hne)]%Hiff. congruence.
  - intros n i s Hn Hs. eexists. split; [by apply Hrow|].
    split; [intros k Hk; by rewrite lookup_insert_ne|]. split.
    + intros Hres%keep_informative_nil. unfold keep_informative in Hres.
      rewrite Hres. split; [apply lookup_insert_eq|].
      intros [_ (l & Hl & Hne)]%Hiff. rewrite lookup_insert_eq in Hl.
      by injection Hl as <-.
    + intros x Hx Ho Hg.
      assert (x ∈ filter (fun x => x ≠ "Other" ∧ x ≠ "General") (split "," s))
        as Hin by by apply list_elem_of_filter.
      split.
      * apply Hiff. split.
        -- eapply list_elem_of_lookup_2. by apply Hrow.
        -- eexists. split; [apply lookup_insert_eq|].
           intros Hnil. rewrite Hnil in Hin. by apply not_elem_of_nil in Hin.
      * eexists. split; [apply lookup_insert_eq|]. split; [done|].
        split; intros [[? ?] _]%list_elem_of_filter; done.
  - intros i' [Hi' (l & Hl & Hne)]%Hiff.
    apply list_elem_of_lookup in Hi' as [n Hn'].
    pose proof Hlab as HF%mapM_Ok.
    destruct (Forall2_lookup_r _ _ _ _ _ HF Hn') as (i & Hn & Hi).
    apply label_row_Ok in Hi as (s & Hs & ->).
    rewrite lookup_insert_eq in Hl. injection Hl as <-.
    unfold keep_informative in Hne.
    destruct (filter (fun x => x ≠ "Other" ∧ x ≠ "General") (split "," s))
      as [|x l] eqn:Hf; [done|].
    assert (x ∈ filter (fun x => x ≠ "Other" ∧ x ≠ "General") (split "," s))
      as [[Ho Hg] Hx]%list_elem_of_filter by (rewrite Hf; apply list_elem_of_here).
    exists n, i, s, x. split; [done|]. split; [done|].
    split; [rewrite Hn'; unfold keep_informative; by rewrite Hf|].
    split; [intros k Hk; by rewrite lookup_insert_ne|]. done.
Qed.

Lemma filtering_leaves_no_empty_label_set_witness :
  Forall (fun i => ∃ l, i !! "Issue" = Some (VList l) ∧ l ≠ []) example_kept ∧
  ∃ i' : gmap string value,
    example_labelled !! 2%nat = Some i' ∧
    i' !! "Issue" = Some (VList []) ∧ i' ∉ example_kept.
Proof.
  destruct (filtering_leaves_no_empty_label_set
              example_recs example_labelled example_kept)
    as (Hkept & _ & _ & _ & Hrows & _);
    [vm_compute; reflexivity | vm_compute; reflexivity |].
  split; [exact Hkept|].
  destruct (Hrows 2%nat
              {[ "Text" := VStr "no labels here"; "Issue" := VStr "Other" ]}
              "Other" eq_refl eq_refl)
    as (i' & Hi' & _ & Hreserved & _).
  exists i'. split; [exact Hi'|]. apply Hreserved.
  repeat constructor.
Defined.

(** ** The binarizer *)

Lemma elem_of_vocabulary (y : list (list string)) (x : string) :
  x ∈ vocabulary y ↔ ∃ l, l ∈ y ∧ x ∈ l.
Proof.
  unfold vocabulary.
  rewrite (merge_sort_Permutation String.le), elem_of_remove_dups.
  rewrite list_elem_of_join. split; intros (l & ? & ?); by exists l.
Qed.

Lemma NoDup_vocabulary (y : list (list string)) : NoDup (vocabulary y).
Proof.
  unfold vocabulary. rewrite (merge_sort_Permutation String.le).
  apply NoDup_remove_dups.
Qed.

Lemma StronglySorted_vocabulary (y : list (list string)) :
  StronglySorted String.le (vocabulary y).
Proof. apply (StronglySorted_merge_sort String.le). Qed.

(** The vocabulary does not depend on the order in which the distinct
    labels are enumerated before they are sorted. *)
Lemma vocabulary_enumeration (y : list (list string)) (e : list string) :
  NoDup e → (∀ x, x ∈ e ↔ ∃ l, l ∈ y ∧ x ∈ l) →
  merge_sort String.le e = vocabulary y.
Proof.
  intros Hnd He. apply (StronglySorted_unique String.le).
  - apply (StronglySorted_merge_sort String.le).
  - apply StronglySorted_vocabulary.
  - rewrite (merge_sort_Permutation String.le).
    apply NoDup_Permutation; [done|apply NoDup_vocabulary|].
    intros x. by rewrite He, elem_of_vocabulary.
Qed.

Lemma length_indicator classes labels :
  length (indicator classes labels) = length classes.
Proof. unfold indicator. by rewrite length_fmap. Qed.

(** Decoding an indicator row gives the classes that the labels hold. *)
Lemma decode_indicator (classes labels : list string) :
  decode classes (indicator classes labels)
  = Ok (filter (fun c => c ∈ labels) classes).
Proof.
  unfold decode.
  rewrite bool_decide_eq_true_2 by (left; apply length_indicator).
  f_equal. unfold indicator.
  induction classes as [|c classes IH]; [done|].
  rewrite fmap_cons. cbn [zip zip_with]. rewrite !filter_cons. cbn [snd].
  case_bool_decide; repeat case_decide; try done; cbn; by rewrite IH.
Qed.

Lemma decoded_set (y : list (list string)) (l : list string) :
  l ∈ y →
  list_to_set (filter (fun c => c ∈ l) (vocabulary y)) =@{gset string}
  list_to_set l.
Proof.
  intros Hl. apply set_eq. intros x.
  rewrite !elem_of_list_to_set, list_elem_of_filter, elem_of_vocabulary.
  split; [by intros [? _]|]. intros Hx. split; [done|]. by exists l.
Qed.

Lemma StronglySorted_filter {A} (R : relation A) (P : A → Prop)
    `{!∀ x, Decision (P x)} (l : list A) :
  StronglySorted R l → StronglySorted R (filter P l).
Proof.
  induction 1 as [|x l Hl IH Hx]; [constructor|].
  rewrite filter_cons. case_decide; [|done].
  constructor; [done|]. rewrite Forall_forall in Hx |- *.
  intros z [_ Hz]%list_elem_of_filter. by apply Hx.
Qed.

(** C3. Encoding then decoding is the identity on label subsets: for the
    record at any position of the binarizer's input, the indicator row at
    that position, decoded with the learned vocabulary, names exactly the
    labels of that record, each once and in vocabulary order. *)
Theorem binarizer_round_trip
    (mlb : MultiLabelBinarizer) (y : list (list string))
    (k : nat) (l : list string) :
  y !! k = Some l →
  ∃ names row d,
    label_names (snd (fit_transform mlb y)) = Ok names ∧
    fst (fit_transform mlb y) !! k = Some row ∧
    decode names row = Ok d ∧
    list_to_set d =@{gset string} list_to_set l ∧
    NoDup d ∧ StronglySorted String.le d.
Proof.
  intros Hk. exists (vocabulary y), (indicator (vocabulary y) l).
  exists (filter (fun c => c ∈ l) (vocabulary y)). cbn [fit_transform fst snd].
  split; [done|]. split; [by rewrite list_lookup_fmap, Hk|].
  split; [apply decode_indicator|]. split; [|split].
  - apply decoded_set. by eapply list_elem_of_lookup_2.
  - apply NoDup_filter, NoDup_vocabulary.
  - apply StronglySorted_filter, StronglySorted_vocabulary.
Qed.

Lemma binarizer_round_trip_witness :
  ∃ names row d,
    label_names (snd (fit_transform new_mlb [["b"; "a"]; ["c"; "a"; "c"]]))
      = Ok names ∧
    fst (fit_transform new_mlb [["b"; "a"]; ["c"; "a"; "c"]]) !! 1%nat
      = Some row ∧
    decode names row = Ok d ∧
    list_to_set d =@{gset string} list_to_set ["c"; "a"; "c"] ∧
    NoDup d ∧ StronglySorted String.le d.
Proof.
  apply (binarizer_round_trip new_mlb [["b"; "a"]; ["c"; "a"; "c"]] 1).
  reflexivity.
Defined.

Example round_trip_example :
  fit_transform new_mlb [["b"; "a"]; ["c"; "a"; "c"]]
    = ([[1; 1; 0]; [1; 0; 1]]%Z, {| classes_ := Some ["a"; "b"; "c"] |}) ∧
  decode ["a"; "b"; "c"] [1; 0; 1]%Z = Ok ["a"; "c"].
Proof. split; vm_compute; reflexivity. Qed.

(** C6. Binarizing is a function of the input collection alone: a second
    invocation on the same input, on the binarizer the first one left
    behind or on any other, returns the same indicator matrix and stores
    the same vocabulary; and the vocabulary is the same whatever order the
    distinct labels are enumerated in before sorting. *)
Theorem binarizer_deterministic
    (mlb : MultiLabelBinarizer) (y : list (list string)) :
  let run1 := fit_transform mlb y in
  let run2 := fit_transform (snd run1) y in
  fst run1 = fst run2 ∧
  classes_ (snd run1) = classes_ (snd run2) ∧
  (∀ mlb', fit_transform mlb' y = run1) ∧
  (∀ e, e ≡ₚ remove_dups (mjoin y) →
        merge_sort String.le e = vocabulary y ∧
        (indicator (merge_sort String.le e) <$> y) = fst run1).
Proof.
  cbn. split; [done|]. split; [done|]. split; [done|]. intros e He.
  assert (merge_sort String.le e = vocabulary y) as ->; [|done].
  apply vocabulary_enumeration.
  - rewrite He. apply NoDup_remove_dups.
  - intros x. rewrite He, elem_of_remove_dups, list_elem_of_join.
    split; intros (l & ? & ?); by exists l.
Qed.

(** ** The split *)

Lemma Qfloor_unique (x : Q) (a : Z) :
  (inject_Z a <= x)%Q → (x < inject_Z (a + 1))%Q → Qfloor x = a.
Proof.
  intros Hlo Hhi.
  pose proof (Qfloor_le x) as Hfl. pose proof (Qlt_floor x) as Hfu.
  assert (Qfloor x < a + 1)%Z by (rewrite Zlt_Qlt; lra).
  assert (a < Qfloor x + 1)%Z by (rewrite Zlt_Qlt; lra).
  lia.
Qed.

Lemma Qfloor_complement (f t : Q) (n : Z) :
  (t + f == 1)%Q →
  Qfloor (t * inject_Z n) = (n - Qceiling (f * inject_Z n))%Z.
Proof.
  intros Hsum.
  assert (t * inject_Z n == inject_Z n - f * inject_Z n)%Q as Htn.
  { assert (t == 1 - f)%Q as -> by lra. ring. }
  pose proof (Qle_ceiling (f * inject_Z n)) as Hc1.
  pose proof (Qceiling_lt (f * inject_Z n)) as Hc2.
  unfold Z.sub in *. rewrite inject_Z_plus, inject_Z_opp in Hc2.
  change (inject_Z 1) with 1%Q in Hc2.
  apply Qfloor_unique.
  - rewrite inject_Z_plus, inject_Z_opp. lra.
  - rewrite !inject_Z_plus, inject_Z_opp. change (inject_Z 1) with 1%Q. lra.
Qed.

Lemma n_test_bounds (f : Q) (n : nat) :
  (0 < f)%Q → (f < 1)%Q →
  (n_test_of f n ≤ n)%nat ∧
  (f * inject_Z (Z.of_nat n) <= inject_Z (Z.of_nat (n_test_of f n)))%Q ∧
  (inject_Z (Z.of_nat (n_test_of f n)) < f * inject_Z (Z.of_nat n) + 1)%Q.
Proof.
  intros Hpos Hlt. unfold n_test_of.
  set (x := (f * inject_Z (Z.of_nat n))%Q).
  assert (0 <= inject_Z (Z.of_nat n))%Q as Hn
    by (change 0%Q with (inject_Z 0); rewrite <-Zle_Qle; lia).
  assert (0 <= x)%Q as Hx0 by (unfold x; nra).
  assert (x <= inject_Z (Z.of_nat n))%Q as Hxn by (unfold x; nra).
  pose proof (Qle_ceiling x) as Hc1. pose proof (Qceiling_lt x) as Hc2.
  assert (0 ≤ Qceiling x)%Z as Hc0.
  { apply Qceiling_resp_le in Hx0. exact Hx0. }
  assert (Qceiling x ≤ Z.of_nat n)%Z as Hcn.
  { apply Qceiling_resp_le in Hxn. by rewrite Qceiling_Z in Hxn. }
  rewrite Z2Nat.id by done. split; [lia|]. split; [done|].
  unfold Z.sub in Hc2. rewrite inject_Z_plus, inject_Z_opp in Hc2.
  change (inject_Z 1) with 1%Q in Hc2. lra.
Qed.

Lemma take_rows_Ok {A} (a : list A) (ind : list nat) (l : list A) :
  take_rows a ind = Ok l ↔ Forall2 (fun i x => a !! i = Some x) ind l.
Proof.
  unfold take_rows. rewrite mapM_Ok.
  split; intros HF; eapply Forall2_impl; try exact HF;
    intros i x; cbn; destruct (a !! i); congruence.
Qed.

Lemma take_rows_total {A} (a : list A) (ind : list nat) :
  Forall (fun i => i < length a)%nat ind →
  take_rows a ind = Ok (omap (a !!.) ind).
Proof.
  intros Hind. apply take_rows_Ok.
  induction Hind as [|i ind Hi _ IH]; [constructor|].
  apply lookup_lt_is_Some_2 in Hi as [x Hx]. cbn. rewrite Hx.
  by constructor.
Qed.

Lemma omap_lookup_seq {A} (a : list A) :
  omap (a !!.) (seq 0 (length a)) = a.
Proof.
  induction a as [|x a IH]; [done|].
  cbn [length seq]. rewrite <-fmap_S_seq. cbn. f_equal.
  rewrite <-IH at 2. clear IH. generalize (seq 0 (length a)). intros l.
  induction l as [|i l IH]; [done|]. cbn. by rewrite IH.
Qed.

Lemma rows_Permutation {A} (a : list A) (ind : list nat) :
  ind ≡ₚ seq 0 (length a) → omap (a !!.) ind ≡ₚ a.
Proof. intros ->. by rewrite omap_lookup_seq. Qed.

Section split_facts.
Context `{Generator} {A B : Type}.

Lemma n_train_complement (test_size : Q) (train_size : option Q) (n : nat) :
  (0 < test_size)%Q → (test_size < 1)%Q →
  (∀ t, train_size = Some t → (t + test_size == 1)%Q) →
  (n_train_of train_size n (n_test_of test_size n)
   + n_test_of test_size n = n)%nat.
Proof.
  intros Hpos Hlt Hsum.
  destruct (n_test_bounds test_size n Hpos Hlt) as (Hle & Hlo & _).
  destruct train_size as [t|]; unfold n_train_of; [|lia].
  rewrite (Qfloor_complement test_size t) by by apply Hsum.
  unfold n_test_of in *.
  assert (0 ≤ Qceiling (test_size * inject_Z (Z.of_nat n)))%Z.
  { apply (Qceiling_resp_le 0). assert (0 <= inject_Z (Z.of_nat n))%Q
      by (change 0%Q with (inject_Z 0); rewrite <-Zle_Qle; lia). nra. }
  lia.
Qed.

Lemma split_indices_spec (n : nat)
    (test_size : Q) (train_size : option Q) (random_state : option Z)
    (g : rng) :
  (0 < test_size)%Q → (test_size < 1)%Q →
  (∀ t, train_size = Some t → (t + test_size == 1)%Q) →
  ∃ ind_train ind_test g',
    split_indices n test_size train_size random_state g
      = (ind_train, ind_test, g') ∧
    ind_train ++ ind_test ≡ₚ seq 0 n ∧
    length ind_test = n_test_of test_size n.
Proof.
  intros Hpos Hlt Hsum.
  pose proof (n_train_complement test_size train_size n Hpos Hlt Hsum) as Hn.
  unfold split_indices.
  set (n_test := n_test_of test_size n) in *.
  set (n_train := n_train_of train_size n n_test) in *.
  pose proof (permutation_Permutation
                (check_random_state random_state g) n) as Hperm.
  destruct (permutation (check_random_state random_state g) n)
    as [perm r]; simpl in Hperm.
  assert (length perm = n) as Hplen by by rewrite Hperm, length_seq.
  eexists _, _, _. split; [reflexivity|]. split.
  - rewrite take_ge by (rewrite length_drop; lia).
    by rewrite (comm app), take_drop.
  - rewrite length_take. lia.
Qed.

Lemma train_test_split_rows (X : list A) (y : list B)
    (test_size : Q) (train_size : option Q) (random_state : option Z)
    (g g' : rng) (ind_train ind_test : list nat) :
  length y = length X →
  (0 < test_size)%Q → (test_size < 1)%Q →
  (∀ t, train_size = Some t → (t + test_size == 1)%Q) →
  split_indices (length X) test_size train_size random_state g
    = (ind_train, ind_test, g') →
  ind_train ++ ind_test ≡ₚ seq 0 (length X) →
  train_test_split X y test_size train_size random_state g
  = (Ok (omap (X !!.) ind_train, omap (X !!.) ind_test,
         omap (y !!.) ind_train, omap (y !!.) ind_test), g').
Proof.
  intros Hlen Hpos Hlt Hsum Hind Hall.
  pose proof (n_train_complement test_size train_size (length X)
                Hpos Hlt Hsum) as Hn.
  assert (Forall (fun i => i < length X)%nat (ind_train ++ ind_test)) as Hlt_n.
  { rewrite Hall. apply Forall_seq. intros; lia. }
  apply Forall_app in Hlt_n as [Hlt_train Hlt_test].
  unfold train_test_split.
  rewrite bool_decide_eq_false_2 by (intros ?; done).
  rewrite bool_decide_eq_false_2 by lia.
  rewrite Hind. by rewrite !take_rows_total by (by rewrite ?Hlen).
Qed.
End split_facts.

(** C4. For every pair of arrays of the same length, every evaluation
    fraction strictly between 0 and 1, an absent training fraction or one
    that complements the evaluation fraction, every seed choice and every
    generator state, the split returns a training and an evaluation part
    that are taken at disjoint positions, that together hold every record
    exactly once, and whose sizes are the requested fraction of the records
    rounded up for the evaluation part and the remainder for the training
    part. The classification call (0.2, no training fraction) and the
    regression call (0.25 with training fraction 0.75) are both such calls. *)
Theorem split_is_partition `{Generator} {A B : Type}
    (X : list A) (y : list B)
    (test_size : Q) (train_size : option Q) (random_state : option Z)
    (g : rng) :
  length y = length X →
  (0 < test_size)%Q → (test_size < 1)%Q →
  (∀ t, train_size = Some t → (t + test_size == 1)%Q) →
  ∃ ind_train ind_test g' X_train X_test y_train y_test,
    split_indices (length X) test_size train_size random_state g
      = (ind_train, ind_test, g') ∧
    train_test_split X y test_size train_size random_state g
      = (Ok (X_train, X_test, y_train, y_test), g') ∧
    Forall2 (fun i x => X !! i = Some x) ind_train X_train ∧
    Forall2 (fun i x => X !! i = Some x) ind_test X_test ∧
    Forall2 (fun i x => y !! i = Some x) ind_train y_train ∧
    Forall2 (fun i x => y !! i = Some x) ind_test y_test ∧
    NoDup (ind_train ++ ind_test) ∧
    ind_train ++ ind_test ≡ₚ seq 0 (length X) ∧
    X_train ++ X_test ≡ₚ X ∧
    y_train ++ y_test ≡ₚ y ∧
    length X_test = n_test_of test_size (length X) ∧
    (length X_train + length X_test = length X)%nat ∧
    (test_size * inject_Z (Z.of_nat (length X))
       <= inject_Z (Z.of_nat (length X_test)))%Q ∧
    (inject_Z (Z.of_nat (length X_test))
       < test_size * inject_Z (Z.of_nat (length X)) + 1)%Q.
Proof.
  intros Hlen Hpos Hlt Hsum.
  destruct (split_indices_spec (length X) test_size train_size random_state g
              Hpos Hlt Hsum) as (ind_train & ind_test & g' & Hind & Hall & Hn).
  exists ind_train, ind_test, g'. eexists _, _, _, _.
  split; [exact Hind|].
  split; [by apply train_test_split_rows|].
  assert (Forall (fun i => i < length X)%nat (ind_train ++ ind_test)) as Hlt_n.
  { rewrite Hall. apply Forall_seq. intros; lia. }
  apply Forall_app in Hlt_n as [Hlt_train Hlt_test].
  assert (length (omap (X !!.) ind_test) = n_test_of test_size (length X))
    as Htest.
  { rewrite <-Hn. symmetry. eapply Forall2_length.
    by apply take_rows_Ok, take_rows_total. }
  repeat split.
  - by apply take_rows_Ok, take_rows_total.
  - by apply take_rows_Ok, take_rows_total.
  - apply take_rows_Ok, take_rows_total. by rewrite Hlen.
  - apply take_rows_Ok, take_rows_total. by rewrite Hlen.
  - rewrite Hall. apply NoDup_seq.
  - exact Hall.
  - rewrite <-omap_app. by apply rows_Permutation.
  - rewrite <-omap_app. apply rows_Permutation. by rewrite Hlen.
  - exact Htest.
  - rewrite <-length_app, <-omap_app.
    by rewrite (rows_Permutation X) by done.
  - rewrite Htest. apply (n_test_bounds test_size (length X) Hpos Hlt).
  - rewrite Htest. apply (n_test_bounds test_size (length X) Hpos Hlt).
Qed.

Lemma split_is_partition_witness :
  (∃ X_train X_test y_train y_test g',
     classification_split (seq 100 10) (seq 200 10) (5%Z : @rng lcg)
       = (Ok (X_train, X_test, y_train, y_test), g') ∧
     X_train ++ X_test ≡ₚ seq 100 10 ∧ length X_test = 2%nat) ∧
  (∃ X_train X_test y_train y_test g',
     regression_split (seq 100 10) (seq 200 10) (5%Z : @rng lcg)
       = (Ok (X_train, X_test, y_train, y_test), g') ∧
     X_train ++ X_test ≡ₚ seq 100 10 ∧ length X_test = 3%nat).
Proof.
  split.
  - destruct (split_is_partition (seq 100 10) (seq 200 10)
                (2 # 10) None (Some 40%Z) (5%Z : @rng lcg))
      as (? & ? & g' & X_train & X_test & y_train & y_test
          & _ & Hrun & _ & _ & _ & _ & _ & _ & HX & _ & Hn & _);
      [reflexivity | reflexivity | reflexivity | intros t; discriminate |].
    exists X_train, X_test, y_train, y_test, g'.
    split; [exact Hrun|]. split; [exact HX|]. exact Hn.
  - destruct (split_is_partition (seq 100 10) (seq 200 10)
                (25 # 100) (Some (75 # 100)) None (5%Z : @rng lcg))
      as (? & ? & g' & X_train & X_test & y_train & y_test
          & _ & Hrun & _ & _ & _ & _ & _ & _ & HX & _ & Hn & _);
      [reflexivity | reflexivity | reflexivity
      | intros t [= <-]; reflexivity |].
    exists X_train, X_test, y_train, y_test, g'.
    split; [exact Hrun|]. split; [exact HX|]. exact Hn.
Defined.

Example classification_split_example :
  fst (classification_split (seq 100 10) (seq 200 10) (5%Z : @rng lcg))
  = Ok ([101; 102; 108; 100; 106; 105; 109; 104], [107; 103],
        [201; 202; 208; 200; 206; 205; 209; 204], [207; 203]).
Proof. vm_compute. reflexivity. Qed.

(** ** Seeds *)

(** A call that is given a seed does not look at the process-wide generator
    and leaves it as it was. *)
Lemma seeded_split_ignores_generator `{Generator} {A B : Type}
    (X : list A) (y : list B) test_size train_size (seed : Z) (g1 g2 : rng) :
  fst (train_test_split X y test_size train_size (Some seed) g1)
  = fst (train_test_split X y test_size train_size (Some seed) g2) ∧
  snd (train_test_split X y test_size train_size (Some seed) g1) = g1.
Proof.
  unfold train_test_split, split_indices. cbn [check_random_state].
  repeat case_bool_decide; try done.
  by destruct (permutation (seed_rng seed) (length X)).
Qed.

(** A call that is given no seed does what a seeded call does when the
    process-wide generator is in the state that the seed would make. *)
Lemma unseeded_split_from_seed_state `{Generator} {A B : Type}
    (X : list A) (y : list B) test_size train_size (seed : Z) (g : rng) :
  fst (train_test_split X y test_size train_size None (seed_rng seed))
  = fst (train_test_split X y test_size train_size (Some seed) g).
Proof.
  unfold train_test_split, split_indices. cbn [check_random_state].
  repeat case_bool_decide; try done.
  by destruct (permutation (seed_rng seed) (length X)).
Qed.

(** C5 does not hold of the regression split: the call passes no seed, and
    two runs on the same arrays with the same fractions, from two
    states of the process-wide generator, return different partitions. *)
Lemma regression_split_depends_on_generator_state :
  regression_split [1; 2]%nat [3; 4]%nat (1%Z : @rng lcg)
    = train_test_split [1; 2]%nat [3; 4]%nat (25 # 100) (Some (75 # 100))
        None (1%Z : @rng lcg) ∧
  fst (regression_split [1; 2]%nat [3; 4]%nat (1%Z : @rng lcg))
    = Ok ([2], [1], [4], [3])%nat ∧
  fst (regression_split [1; 2]%nat [3; 4]%nat (2%Z : @rng lcg))
    = Ok ([1], [2], [3], [4])%nat ∧
  fst (regression_split [1; 2]%nat [3; 4]%nat (1%Z : @rng lcg))
    ≠ fst (regression_split [1; 2]%nat [3; 4]%nat (2%Z : @rng lcg)).
Proof. repeat split; vm_compute; (reflexivity || discriminate). Qed.

(** C5, for the calls as they are written. The classification split is driven by the explicit seed
    40: whatever the state of the process-wide generator, two runs on the
    same arrays return the same partition, and the call leaves that
    generator untouched. The regression split passes no seed: its partition
    is the one a seeded call returns when the process-wide generator is in
    the state that seed makes, so two runs agree when they start from the
    same generator state. *)
Theorem split_determinism `{Generator} {A B : Type}
    (X : list A) (y : list B) (g1 g2 : rng) (seed : Z) :
  fst (classification_split X y g1) = fst (classification_split X y g2) ∧
  snd (classification_split X y g1) = g1 ∧
  fst (regression_split X y (seed_rng seed))
    = fst (train_test_split X y (25 # 100) (Some (75 # 100)) (Some seed) g2).
Proof.
  unfold classification_split, regression_split.
  split; [|split].
  - exact (proj1 (seeded_split_ignores_generator X y _ _ 40 g1 g2)).
  - exact (proj2 (seeded_split_ignores_generator X y _ _ 40 g1 g2)).
  - apply unseeded_split_from_seed_state.
Qed.

(** ** Mean agreement *)

Lemma array_eq_diag (m : list (list Z)) :
  array_eq m m = Ok ((fun _ => true) <$> mjoin m).
Proof.
  unfold array_eq. rewrite bool_decide_eq_true_2 by done. f_equal.
  rewrite zip_with_diag.
  induction m as [|r m IH]; [done|].
  rewrite fmap_cons. change (mjoin (?x :: ?l)) with (x ++ mjoin l).
  rewrite fmap_app, IH. f_equal.
  rewrite zip_with_diag. apply list_fmap_ext. intros _ z _. apply Z.eqb_refl.
Qed.

Lemma np_mean_all_true (cells : list bool) :
  cells ≠ [] → Forall (fun b => b = true) cells →
  ∃ q, np_mean cells = Score q ∧ (q == 1)%Q.
Proof.
  intros Hne Hall. destruct cells as [|b cells]; [done|].
  eexists. split; [reflexivity|].
  assert (filter (fun b => b = true) (b :: cells) = b :: cells) as ->.
  { clear Hne. induction Hall as [|c cs Hc _ IH]; [done|].
    by rewrite filter_cons_True, IH. }
  apply Qmult_inv_r. cbn [length]. rewrite Nat2Z.inj_succ.
  intros Hz. apply (proj1 (inject_Z_injective _ 0%Z)) in Hz. lia.
Qed.

(** C7. When the predicted indicator matrix is cell by cell the ground
    truth of a held-out set, one with at least one record over at least one
    class, the mean agreement is 1. *)
Theorem perfect_agreement (predicted y_test : list (list Z)) :
  predicted = y_test →
  mjoin y_test ≠ [] →
  ∃ q, mean_agreement predicted y_test = Ok (Score q) ∧ (q == 1)%Q.
Proof.
  intros -> Hne. unfold mean_agreement. rewrite array_eq_diag.
  destruct (np_mean_all_true ((fun _ => true) <$> mjoin y_test))
    as (q & Hq & Hone).
  - by destruct (mjoin y_test).
  - apply Forall_fmap, Forall_true. done.
  - exists q. cbn. by rewrite Hq.
Qed.

Lemma perfect_agreement_witness :
  ∃ q, mean_agreement [[1; 0]; [1; 1]]%Z [[1; 0]; [1; 1]]%Z = Ok (Score q) ∧
       (q == 1)%Q.
Proof. apply perfect_agreement; [reflexivity|discriminate]. Defined.

Example agreement_examples :
  mean_agreement [[1; 0]; [1; 1]]%Z [[1; 0]; [1; 1]]%Z = Ok (Score (4 # 4)) ∧
  mean_agreement [[1; 0]; [1; 1]]%Z [[1; 0]; [0; 1]]%Z = Ok (Score (3 # 4)) ∧
  mean_agreement [] [] = Ok NaN.
Proof. repeat split. Qed.

(** ** The best grid-search entry *)

Lemma max_from_first {A} (key : A → Q) (best : A) (rest : list A) :
  ∃ k, (best :: rest) !! k = Some (max_from key best rest) ∧
       (∀ j x, (j < k)%nat → (best :: rest) !! j = Some x →
               (key x < key (max_from key best rest))%Q) ∧
       (∀ x, x ∈ best :: rest → (key x <= key (max_from key best rest))%Q).
Proof.
  revert best. induction rest as [|x rest IH]; intros best; cbn [max_from].
  - exists 0%nat. split; [done|]. split; [intros; lia|].
    intros x ->%list_elem_of_singleton. lra.
  - destruct (Qlt_le_dec (key best) (key x)) as [Hlt|Hle].
    + destruct (IH x) as (k & Hk & Hbefore & Hmax).
      exists (S k). split; [done|]. split.
      * intros [|j] y Hj Hy.
        -- injection Hy as <-. pose proof (Hmax x (list_elem_of_here _ _)). lra.
        -- apply (Hbefore j); [lia|done].
      * intros y [->|Hy]%elem_of_cons; [|by apply Hmax].
        pose proof (Hmax x (list_elem_of_here _ _)). lra.
    + destruct (IH best) as (k & Hk & Hbefore & Hmax).
      destruct k as [|k].
      * exists 0%nat. split; [done|]. split; [intros; lia|].
        intros y [->|[->|Hy]%elem_of_cons]%elem_of_cons.
        -- apply Hmax, list_elem_of_here.
        -- pose proof (Hmax best (list_elem_of_here _ _)). lra.
        -- by apply Hmax, list_elem_of_further.
      * exists (S (S k)). split; [done|].
        assert (key best < key (max_from key best rest))%Q as Hb
          by (apply (Hbefore 0%nat); [lia|done]).
        split.
        -- intros [|[|j]] y Hj Hy.
           ++ by injection Hy as <-.
           ++ injection Hy as <-. lra.
           ++ apply (Hbefore (S j)); [lia|done].
        -- intros y [->|[->|Hy]%elem_of_cons]%elem_of_cons.
           ++ lra.
           ++ lra.
           ++ by apply Hmax, list_elem_of_further.
Qed.

(** On the entries that a search over a parameter grid records, the
    selection returns a combination of the grid whose mean held-out score no
    combination of the grid exceeds. *)
Lemma best_of_grid (grid : list (string * list option_value))
    (mean_score : gmap string option_value → Q)
    (fold_scores : gmap string option_value → list Q) :
  ParameterGrid grid ≠ [] →
  ∃ params,
    best_of (grid_scores_of grid mean_score fold_scores)
      = Ok (params, mean_score params) ∧
    params ∈ ParameterGrid grid ∧
    ∀ params', params' ∈ ParameterGrid grid →
               (mean_score params' <= mean_score params)%Q.
Proof.
  unfold grid_scores_of. intros Hne.
  destruct (ParameterGrid grid) as [|p0 ps]; [done|]. rewrite fmap_cons.
  unfold best_of. cbn [py_max mbind result_bind].
  set (entry := fun params => (params, mean_score params, fold_scores params)).
  destruct (max_from_first (fun x => snd (fst x)) (entry p0) (entry <$> ps))
    as (k & Hk & _ & Hmax).
  rewrite <-fmap_cons in Hk, Hmax.
  apply list_lookup_fmap_Some in Hk as (params & Hbest & Hparams).
  rewrite Hbest in Hmax. exists params.
  change (p0, mean_score p0, fold_scores p0) with (entry p0). rewrite Hbest.
  split; [done|]. split; [by eapply list_elem_of_lookup_2|].
  intros params' Hin.
  apply (Hmax (entry params')), list_elem_of_fmap_2, Hin.
Qed.

Lemma ParameterGrid_parameters : ParameterGrid parameters ≠ [].
Proof. discriminate. Qed.

(** C8. On a non-empty list of grid-search entries, the selection returns
    the parameters and the score of an entry of the list whose mean score
    no entry exceeds; among the entries with that score it is the first. *)
Theorem best_of_is_maximal {P : Type} (grid_scores_ : list (P * Q * list Q)) :
  grid_scores_ ≠ [] →
  ∃ best_parameters score folds k,
    best_of grid_scores_ = Ok (best_parameters, score) ∧
    grid_scores_ !! k = Some (best_parameters, score, folds) ∧
    (∀ p s f, (p, s, f) ∈ grid_scores_ → (s <= score)%Q) ∧
    (∀ j p s f, (j < k)%nat → grid_scores_ !! j = Some (p, s, f) →
                (s < score)%Q).
Proof.
  intros Hne. destruct grid_scores_ as [|x rest]; [done|].
  destruct (max_from_first (fun x => snd (fst x)) x rest)
    as (k & Hk & Hbefore & Hmax).
  unfold best_of. cbn [py_max mbind result_bind].
  destruct (max_from (fun x => snd (fst x)) x rest) as [[bp sc] folds].
  exists bp, sc, folds, k. split; [done|]. split; [done|]. split.
  - intros p s f Hin. apply (Hmax (p, s, f) Hin).
  - intros j p s f Hj Hlook. apply (Hbefore j (p, s, f) Hj Hlook).
Qed.

Lemma best_of_is_maximal_witness :
  ∃ best_parameters score folds k,
    best_of example_grid_scores = Ok (best_parameters, score) ∧
    example_grid_scores !! k = Some (best_parameters, score, folds) ∧
    (∀ p s f, (p, s, f) ∈ example_grid_scores → (s <= score)%Q) ∧
    (∀ j p s f, (j < k)%nat → example_grid_scores !! j = Some (p, s, f) →
                (s < score)%Q).
Proof. apply best_of_is_maximal. discriminate. Defined.

Example best_of_examples :
  best_of example_grid_scores = Ok ("b", 3 # 4) ∧
  best_of (P:=string) [] = Raise ValueError ∧
  length (ParameterGrid parameters) = 6%nat.
Proof. repeat split. Qed.

(** ** The cells together *)

Lemma column_Ok col (rows : list (gmap string value)) (vs : list value) :
  column col rows = Ok vs →
  rows ≠ [] ∧ vs = (fun i => default VNone (i !! col)) <$> rows.
Proof.
  unfold column. case_bool_decide as Hex; [|done]. intros [= <-].
  split; [|done]. intros ->. by apply Exists_nil in Hex.
Qed.

Lemma iter_labels_lists (kept : list (gmap string value)) (y : list (list string)) :
  Forall (fun i => ∃ l, i !! "Issue" = Some (VList l)) kept →
  mapM iter_labels ((fun i => default VNone (i !! "Issue")) <$> kept) = Ok y →
  Forall2 (fun i l => i !! "Issue" = Some (VList l)) kept y.
Proof.
  intros Hall. revert y.
  induction Hall as [|i kept [l Hl] _ IH]; intros y Hy%mapM_Ok.
  - inversion Hy. constructor.
  - rewrite fmap_cons, Hl in Hy. inversion Hy as [|? l' ? y' Hl' Hy']; subst.
    injection Hl' as <-. constructor; [done|]. by apply IH, mapM_Ok.
Qed.

(** What a completed run of the cells up to the label names has computed. *)
Lemma prepare_Ok recs text labels_binary names :
  prepare recs = Ok (text, labels_binary, names) →
  ∃ recs1 kept y,
    label_cell recs = Ok recs1 ∧
    rec_sub recs1 = Ok kept ∧
    kept ≠ [] ∧
    Forall2 (fun i l => i !! "Issue" = Some (VList l)) kept y ∧
    text = (fun i => default VNone (i !! "Text")) <$> kept ∧
    names = vocabulary y ∧
    labels_binary = indicator (vocabulary y) <$> y.
Proof.
  unfold prepare, load_and_preprocess, binarize_cell.
  intros ([text' labels] & Hload & Hrest)%bind_Ok.
  apply bind_Ok in Hload as (recs1 & Hlab & Hload).
  apply bind_Ok in Hload as (kept & Hsub & Hload).
  apply bind_Ok in Hload as (text'' & [Hne ->]%column_Ok & Hload).
  apply bind_Ok in Hload as (labels' & [_ ->]%column_Ok & [= <- <-]).
  apply bind_Ok in Hrest as ([m mlb] & Hbin & Hrest).
  apply bind_Ok in Hbin as (y & Hy & [= <- <-]).
  apply bind_Ok in Hrest as (names' & [= <-] & [= <- <- <-]).
  exists recs1, kept, y. repeat split; try done.
  apply iter_labels_lists; [|done].
  pose proof (label_cell_labelled _ _ Hlab) as Hall.
  apply rec_sub_Ok in Hsub as [_ ->].
  rewrite Forall_forall in Hall |- *.
  intros i [_ Hi]%list_elem_of_filter. by apply Hall.
Qed.

(** The labelled form of the row at a position, and when it is kept. *)
Lemma label_cell_lookup recs recs1 (n : nat) (i : gmap string value) s :
  label_cell recs = Ok recs1 →
  recs !! n = Some i → i !! "Issue" = Some (VStr s) →
  recs1 !! n = Some (<["Issue" := VList (keep_informative (split "," s))]> i).
Proof.
  intros Hlab%mapM_Ok Hn Hs.
  destruct (Forall2_lookup_l _ _ _ _ _ Hlab Hn) as (i' & Hn' & Hi').
  apply label_row_Ok in Hi' as (s' & Hs' & ->). congruence.
Qed.

Lemma rec_sub_keeps recs1 kept (n : nat) (i : gmap string value) l :
  rec_sub recs1 = Ok kept →
  recs1 !! n = Some i → i !! "Issue" = Some (VList l) → l ≠ [] →
  i ∈ kept.
Proof.
  intros [_ ->]%rec_sub_Ok Hn Hl Hne. apply list_elem_of_filter. split.
  - unfold labelled. rewrite Hl. by apply truthy_VList.
  - by eapply list_elem_of_lookup_2.
Qed.

(** C9. A row whose label field is the empty string: splitting the field
    on the comma gives the single token [""], which is not a reserved token,
    so the row's label list is [[""]], which is not empty, and the drop of
    unlabelled rows keeps the row. *)
Theorem empty_label_field_is_retained
    (recs recs1 kept : list (gmap string value))
    (n : nat) (i : gmap string value) :
  recs !! n = Some i →
  i !! "Issue" = Some (VStr "") →
  label_cell recs = Ok recs1 →
  rec_sub recs1 = Ok kept →
  split "," "" = [""] ∧
  keep_informative (split "," "") = [""] ∧
  recs1 !! n = Some (<["Issue" := VList [""]]> i) ∧
  <["Issue" := VList [""]]> i ∈ kept.
Proof.
  intros Hn Hi Hlab Hsub.
  pose proof (label_cell_lookup _ _ _ _ _ Hlab Hn Hi) as Hn1.
  change (keep_informative (split "," "")) with [""] in Hn1.
  repeat split; try done.
  apply (rec_sub_keeps recs1 kept n _ [""] Hsub Hn1); [|done].
  apply lookup_insert_eq.
Qed.

Lemma empty_label_field_is_retained_witness :
  example_empty_labelled !! 0%nat
    = Some (<["Issue" := VList [""]]> example_empty_row) ∧
  <["Issue" := VList [""]]> example_empty_row ∈ example_empty_labelled.
Proof.
  destruct (empty_label_field_is_retained
              [example_empty_row] example_empty_labelled example_empty_labelled
              0 example_empty_row) as (_ & _ & Hn & Hin);
    [reflexivity | reflexivity | vm_compute; reflexivity
    | vm_compute; reflexivity |].
  split; [exact Hn|exact Hin].
Defined.


Lemma split_no_comma (s : string) : no_comma s → split "," s = [s].
Proof.
  unfold no_comma. induction s as [|c s IH]; [done|].
  cbn [String.list_ascii_of_string String.append split].
  intros [Hc Hs]%Forall_cons.
  destruct (Ascii.eqb_spec c ","); [done|]. by rewrite IH.
Qed.

Lemma split_app_comma (s rest : string) :
  no_comma s → split "," (s +:+ String "," rest) = s :: split "," rest.
Proof.
  unfold no_comma. induction s as [|c s IH]; [done|].
  cbn [String.list_ascii_of_string]. intros [Hc Hs]%Forall_cons.
  change (String c s +:+ String "," rest)
    with (String c (s +:+ String "," rest)).
  cbn [split]. destruct (Ascii.eqb_spec c ","); [done|]. by rewrite IH.
Qed.

Lemma join_space (t : string) (ts : list string) :
  String " " (join ", " (t :: ts)) = join ", " (String " " t :: ts).
Proof. by destruct ts. Qed.

(** Splitting on [","] a field whose tokens were joined with [", "]. *)
Lemma split_join_comma_space (t : string) (ts : list string) :
  Forall no_comma (t :: ts) →
  split "," (join ", " (t :: ts)) = t :: (String " " <$> ts).
Proof.
  revert t. induction ts as [|t2 ts IH]; intros t [Ht Hts]%Forall_cons.
  - by apply split_no_comma.
  - change (join ", " (t :: t2 :: ts))
      with (t +:+ String "," (String " " (join ", " (t2 :: ts)))).
    rewrite split_app_comma by done. rewrite join_space, IH; [done|].
    apply Forall_cons in Hts as [Ht2 Hts]. constructor; [|done].
    unfold no_comma. cbn. by constructor.
Qed.

Lemma spaced_token_kept (x : string) (issues : list string) :
  String " " x ∈ issues → String " " x ∈ keep_informative issues.
Proof. intros Hin. apply list_elem_of_filter. by split. Qed.

Lemma labelled_row_in_vocabulary recs (n : nat) (i : gmap string value) s x
    text labels_binary names :
  recs !! n = Some i → i !! "Issue" = Some (VStr s) →
  x ∈ keep_informative (split "," s) →
  prepare recs = Ok (text, labels_binary, names) →
  x ∈ names.
Proof.
  intros Hn Hs Hx (recs1 & kept & y & Hlab & Hsub & _ & Hy & _ & -> & _)%prepare_Ok.
  pose proof (label_cell_lookup _ _ _ _ _ Hlab Hn Hs) as Hn1.
  assert (<["Issue" := VList (keep_informative (split "," s))]> i ∈ kept)
    as Hkept.
  { apply (rec_sub_keeps recs1 kept n _ _ Hsub Hn1 (lookup_insert_eq _ _ _)).
    intros Hnil. rewrite Hnil in Hx. by apply not_elem_of_nil in Hx. }
  apply list_elem_of_lookup in Hkept as [k Hk].
  destruct (Forall2_lookup_l _ _ _ _ _ Hy Hk) as (l & Hl & Hil).
  rewrite lookup_insert_eq in Hil. injection Hil as <-.
  apply elem_of_vocabulary. eexists. split; [|done].
  by eapply list_elem_of_lookup_2.
Qed.

(** C10. The tokens are compared with the reserved names as they are cut,
    without trimming: when the tokens of a label field are separated by a
    comma and a space, splitting on the comma leaves the space at the head
    of every token after the first; such a token differs from [Other] and
    from [General], so it is kept, and it is in the vocabulary of every run
    whose input holds the row. For the token [Other] this is [" Other"]. *)
Theorem reserved_tokens_compared_untrimmed
    (t : string) (ts : list string) (x : string) :
  Forall no_comma (t :: ts) → x ∈ ts →
  split "," (join ", " (t :: ts)) = t :: (String " " <$> ts) ∧
  String " " x ∈ keep_informative (split "," (join ", " (t :: ts))) ∧
  ∀ recs (n : nat) (i : gmap string value) text labels_binary names,
    recs !! n = Some i →
    i !! "Issue" = Some (VStr (join ", " (t :: ts))) →
    prepare recs = Ok (text, labels_binary, names) →
    String " " x ∈ names.
Proof.
  intros Hts Hx.
  assert (String " " x ∈ keep_informative (split "," (join ", " (t :: ts))))
    as Hkeep.
  { apply spaced_token_kept. rewrite split_join_comma_space by done.
    apply list_elem_of_further. by apply list_elem_of_fmap_2. }
  split; [by apply split_join_comma_space|]. split; [done|].
  intros recs n i text labels_binary names Hn Hi Hprep.
  by eapply labelled_row_in_vocabulary.
Qed.

Lemma reserved_tokens_compared_untrimmed_witness :
  split "," (join ", " ["Judicial System"; "Other"])
    = ["Judicial System"; " Other"] ∧
  " Other" ∈ keep_informative (split "," (join ", " ["Judicial System"; "Other"])).
Proof.
  destruct (reserved_tokens_compared_untrimmed
              "Judicial System" ["Other"] "Other") as (Hsplit & Hkeep & _).
  - repeat constructor; discriminate.
  - apply list_elem_of_here.
  - split; [exact Hsplit|exact Hkeep].
Defined.

Example comma_space_example :
  prepare [ {[ "Text" := VStr "unfair trial";
               "Issue" := VStr "Judicial System, Other" ]} ]
  = Ok ([VStr "unfair trial"], [[1; 1]]%Z, [" Other"; "Judicial System"]).
Proof. vm_compute. reflexivity. Qed.

Example empty_field_example :
  prepare [example_empty_row]
  = Ok ([VStr "unlabelled"], [[1]]%Z, [""]).
Proof. vm_compute. reflexivity. Qed.

(** The round trip on the notebook's own data: the indicator row of a kept
    record decodes, with the label names, to the labels of that record. *)
Lemma kept_record_round_trip recs text labels_binary names recs1 kept
    (k : nat) (i : gmap string value) (l : list string) :
  prepare recs = Ok (text, labels_binary, names) →
  label_cell recs = Ok recs1 → rec_sub recs1 = Ok kept →
  kept !! k = Some i → i !! "Issue" = Some (VList l) →
  ∃ row d,
    labels_binary !! k = Some row ∧
    decode names row = Ok d ∧
    list_to_set d =@{gset string} list_to_set l.
Proof.
  intros (recs1' & kept' & y & Hlab' & Hsub' & _ & Hy & _ & -> & ->)%prepare_Ok
    Hlab Hsub Hk Hl.
  rewrite Hlab in Hlab'. injection Hlab' as <-.
  rewrite Hsub in Hsub'. injection Hsub' as <-.
  destruct (Forall2_lookup_l _ _ _ _ _ Hy Hk) as (l' & Hyk & Hl').
  assert (l' = l) as -> by congruence.
  exists (indicator (vocabulary y) l), (filter (fun c => c ∈ l) (vocabulary y)).
  split; [by rewrite list_lookup_fmap, Hyk|].
  split; [apply decode_indicator|].
  apply decoded_set. by eapply list_elem_of_lookup_2.
Qed.

(** The cells up to the label names run to completion on rows that all have
    a text and a string of labels, one of which keeps a label. *)
Lemma prepare_total recs :
  Forall (fun i => has_issue_string i ∧ is_Some (i !! "Text")) recs →
  Exists (fun i => ∃ s, i !! "Issue" = Some (VStr s) ∧
                        keep_informative (split "," s) ≠ []) recs →
  ∃ text labels_binary names, prepare recs = Ok (text, labels_binary, names).
Proof.
  intros Hall Hex.
  destruct (label_cell_total recs) as [recs1 Hlab].
  { eapply Forall_impl; [exact Hall|]. by intros i [? _]. }
  pose proof (label_cell_labelled _ _ Hlab) as Hlists.
  destruct (rec_sub_total recs1) as [kept Hsub].
  { eapply Forall_impl; [exact Hlists|]. intros i [l Hl]. by eexists. }
  assert (Forall (fun i => is_Some (i !! "Text")) recs1) as Htext.
  { pose proof Hlab as HF%mapM_Ok. clear -HF Hall.
    induction HF as [|i i' recs recs1 Hi _ IH]; [constructor|].
    apply Forall_cons in Hall as [[_ Ht] Hall]. constructor; [|by apply IH].
    apply label_row_Ok in Hi as (s & _ & ->). by rewrite lookup_insert_ne. }
  assert (∃ i, i ∈ kept) as [i0 Hi0].
  { apply Exists_exists in Hex as (i & Hi & s & Hs & Hne).
    apply list_elem_of_lookup in Hi as [n Hn].
    eexists. eapply rec_sub_keeps; [exact Hsub| | |exact Hne].
    - by eapply label_cell_lookup.
    - apply lookup_insert_eq. }
  pose proof Hsub as [_ Hkept]%rec_sub_Ok.
  assert (Forall (fun i => is_Some (i !! "Text") ∧
                           ∃ l, i !! "Issue" = Some (VList l)) kept) as Hk.
  { rewrite Hkept. apply Forall_forall.
    intros i [_ Hi]%list_elem_of_filter. split.
    - by apply (proj1 (Forall_forall _ _) Htext).
    - by apply (proj1 (Forall_forall _ _) Hlists). }
  destruct (mapM_Ok_total iter_labels
              ((fun i => default VNone (i !! "Issue")) <$> kept)) as [y Hy].
  { apply Forall_fmap, Forall_forall. intros i Hi.
    destruct (proj1 (Forall_forall _ _) Hk i Hi) as [_ [l Hl]].
    exists l. cbn. by rewrite Hl. }
  assert (∀ col, is_Some (i0 !! col) →
            column col kept = Ok ((fun i => default VNone (i !! col)) <$> kept))
    as Hcol.
  { intros col Hc. unfold column. rewrite bool_decide_eq_true_2; [done|].
    apply Exists_exists. by exists i0. }
  destruct (proj1 (Forall_forall _ _) Hk i0 Hi0) as [Ht0 [l0 Hl0]].
  eexists _, _, _. unfold prepare, load_and_preprocess, binarize_cell.
  rewrite Hlab. cbn [mbind result_bind]. rewrite Hsub. cbn [mbind result_bind].
  rewrite (Hcol "Text" Ht0). cbn [mbind result_bind].
  rewrite (Hcol "Issue") by by eexists. cbn [mbind result_bind].
  rewrite Hy. cbn [mbind result_bind]. reflexivity.
Qed.

(** The held-out part that the classification notebook scores is never
    empty: it has at least one row, and a row has one cell per class of a
    vocabulary that holds at least one label. *)
Lemma held_out_has_cells {G : Generator} recs text labels_binary names
    (g g' : rng) X_train X_test y_train y_test :
  prepare recs = Ok (text, labels_binary, names) →
  classification_split text labels_binary g
    = (Ok (X_train, X_test, y_train, y_test), g') →
  mjoin y_test ≠ [].
Proof.
  intros (recs1 & kept & y & Hlab & Hsub & Hne & Hy & -> & -> & ->)%prepare_Ok.
  assert (Forall (fun l => l ≠ []) y) as Hy_ne.
  { apply rec_sub_Ok in Hsub as [_ ->].
    apply (Forall2_Forall_r _ _ _ _ Hy), Forall_forall.
    intros i [Hi _]%list_elem_of_filter l Hl.
    unfold labelled in Hi. rewrite Hl in Hi. by apply truthy_VList. }
  assert (vocabulary y ≠ []) as Hvoc.
  { destruct Hy as [|i l kept' y' _ _]; [done|].
    apply Forall_cons in Hy_ne as [Hl _]. destruct l as [|x l]; [done|].
    assert (x ∈ vocabulary ((x :: l) :: y')) as Hx.
    { apply elem_of_vocabulary. eexists. split; apply list_elem_of_here. }
    intros Hnil. rewrite Hnil in Hx. by apply not_elem_of_nil in Hx. }
  assert (length (indicator (vocabulary y) <$> y)
          = length ((fun i => default VNone (i !! "Text")) <$> kept)) as Hlen.
  { rewrite !length_fmap. symmetry. by eapply Forall2_length. }
  unfold classification_split. intros Hrun.
  set (text := (fun i => default VNone (i !! "Text")) <$> kept) in *.
  destruct (split_indices_spec (length text) (2 # 10) None (Some 40%Z) g)
    as (ind_train & ind_test & g'' & Hind & Hall & Hn);
    [reflexivity | reflexivity | intros t; discriminate |].
  assert (∀ t, None = Some t → (t + (2 # 10) == 1)%Q) as Hnone by by intros t.
  pose proof (train_test_split_rows text _ (2 # 10) None (Some 40%Z)
                g g'' ind_train ind_test Hlen eq_refl eq_refl Hnone Hind Hall)
    as Hrows.
  rewrite Hrows in Hrun. injection Hrun as <- <- <- <- <-.
  destruct (n_test_bounds (2 # 10) (length text)) as (_ & Hlo & _);
    [reflexivity | reflexivity |].
  assert (ind_test ≠ []) as Hne_test.
  { intros ->. cbn [length] in Hn. rewrite <-Hn in Hlo.
    unfold text in Hlo. rewrite length_fmap in Hlo.
    destruct kept as [|i kept]; [done|]. cbn [length] in Hlo.
    rewrite Nat2Z.inj_succ in Hlo.
    assert (0 < inject_Z (Z.succ (Z.of_nat (length kept))))%Q
      by (change 0%Q with (inject_Z 0); rewrite <-Zlt_Qlt; lia).
    change (inject_Z (Z.of_nat 0)) with 0%Q in Hlo. nra. }
  destruct ind_test as [|k ind_test]; [done|].
  assert (k < length (indicator (vocabulary y) <$> y))%nat as Hk.
  { rewrite Hlen. apply (elem_of_seq 0). rewrite <-Hall.
    apply elem_of_app. right. apply list_elem_of_here. }
  apply lookup_lt_is_Some_2 in Hk as [row Hrow].
  cbn [omap list_omap]. rewrite Hrow.
  apply list_lookup_fmap_Some in Hrow as (l & -> & _).
  intros Hnil%join_nil. apply Forall_cons in Hnil as [Hnil _].
  apply (f_equal length) in Hnil. rewrite length_indicator in Hnil.
  by destruct (vocabulary y).
Qed.

(** * Further properties of the cells *)

(** ** The label cell: failures, what it leaves alone, running it again *)

Lemma label_row_Raise (i : gmap string value) :
  ¬ has_issue_string i →
  label_row i = Raise (match i !! "Issue" with
                       | None => KeyError "Issue"
                       | Some _ => AttributeError
                       end).
Proof.
  intros Hno. unfold label_row, getitem.
  destruct (i !! "Issue") as [[| s | l]|] eqn:Hi; try done.
  destruct Hno. by exists s.
Qed.

Lemma label_cell_Ok_iff recs :
  (∃ recs1, label_cell recs = Ok recs1) ↔ Forall has_issue_string recs.
Proof.
  split; [|apply label_cell_total].
  intros [recs1 HF%mapM_Ok].
  induction HF as [|i i' ? ? Hi _ IH]; constructor; [|done].
  apply label_row_Ok in Hi as (s & Hs & _). by exists s.
Qed.

(** X1. The label cell stops at the first row whose [Issue] is not a
    string, whatever comes after it: with [KeyError] when the row has no
    such column, with [AttributeError] when the entry is [None] or a list. *)
Theorem label_cell_first_failure
    (pre post : list (gmap string value)) (i : gmap string value) :
  Forall has_issue_string pre →
  ¬ has_issue_string i →
  label_cell (pre ++ i :: post)
  = Raise (match i !! "Issue" with
           | None => KeyError "Issue"
           | Some _ => AttributeError
           end).
Proof.
  intros Hpre Hno. unfold label_cell.
  induction Hpre as [|j pre [s Hs] _ IH]; cbn [app mapM].
  - by rewrite (label_row_Raise i Hno).
  - assert (label_row j = Ok (<["Issue" := VList (keep_informative (split "," s))]> j))
      as -> by (apply label_row_Ok; by exists s).
    cbn [mbind result_bind]. by rewrite IH.
Qed.

Lemma label_cell_first_failure_witness :
  label_cell (example_recs ++ {[ "Text" := VStr "no issue column" ]} :: example_recs)
  = Raise (KeyError "Issue").
Proof.
  refine (label_cell_first_failure example_recs example_recs
            {[ "Text" := VStr "no issue column" ]} _ _).
  - repeat constructor; eexists; reflexivity.
  - intros [s Hs]. discriminate Hs.
Defined.

Lemma split_no_sep (s : string) : Forall no_comma (split "," s).
Proof.
  induction s as [|c s IH]; cbn [split].
  - repeat constructor.
  - destruct (Ascii.eqb_spec c ",") as [->|Hc].
    + constructor; [constructor|done].
    + destruct (split "," s) as [|t ts]; [repeat constructor; done|].
      apply Forall_cons in IH as [Ht Hts]. constructor; [|done].
      unfold no_comma. cbn. by constructor.
Qed.

(** X2. When the label cell completes, it has kept the number and the order
    of the rows and has changed nothing but [Issue]: every other column of
    every row is as it was read, and [Issue] holds, in the order of the
    field and as often as the field has them, exactly the pieces of the
    field that are neither [Other] nor [General]; no label holds a comma. *)
Theorem label_cell_rewrites_only_issue
    (recs recs1 : list (gmap string value)) :
  label_cell recs = Ok recs1 →
  length recs1 = length recs ∧
  ∀ (n : nat) (i : gmap string value), recs !! n = Some i →
    ∃ (i' : gmap string value) s l,
      recs1 !! n = Some i' ∧
      (∀ k, k ≠ "Issue" → i' !! k = i !! k) ∧
      i !! "Issue" = Some (VStr s) ∧
      i' !! "Issue" = Some (VList l) ∧
      l = filter (fun x => x ≠ "Other" ∧ x ≠ "General") (split "," s) ∧
      l `sublist_of` split "," s ∧
      (∀ x, x ∈ l ↔ x ∈ split "," s ∧ x ≠ "Other" ∧ x ≠ "General") ∧
      Forall no_comma l.
Proof.
  intros Hlab. pose proof Hlab as HF%mapM_Ok. split.
  - symmetry. by eapply Forall2_length.
  - intros n i Hn.
    destruct (Forall2_lookup_l _ _ _ _ _ HF Hn) as (i' & Hn' & Hi').
    apply label_row_Ok in Hi' as (s & Hs & ->).
    exists (<["Issue" := VList (keep_informative (split "," s))]> i), s,
      (keep_informative (split "," s)).
    split; [done|]. split; [intros k Hk; by rewrite lookup_insert_ne|].
    split; [done|]. split; [apply lookup_insert_eq|].
    split; [reflexivity|].
    split; [apply sublist_filter|]. split.
    + intros x. unfold keep_informative. rewrite list_elem_of_filter. tauto.
    + unfold keep_informative. apply Forall_forall.
      intros x [_ Hx]%list_elem_of_filter.
      by apply (proj1 (Forall_forall _ _) (split_no_sep s)).
Qed.

Lemma label_cell_rewrites_only_issue_witness :
  length example_repeated_labelled = length example_repeated ∧
  ∃ (i' : gmap string value) l,
    example_repeated_labelled !! 0%nat = Some i' ∧
    i' !! "Issue" = Some (VList l) ∧
    l = filter (fun x => x ≠ "Other" ∧ x ≠ "General") (split "," "A,Other,A").
Proof.
  destruct (label_cell_rewrites_only_issue
              example_repeated example_repeated_labelled) as [Hlen Hrows];
    [vm_compute; reflexivity|].
  split; [exact Hlen|].
  destruct (Hrows 0%nat {[ "Text" := VStr "twice"; "Issue" := VStr "A,Other,A" ]}
              eq_refl)
    as (i' & s & l & Hi' & _ & Hs & Hl & Heq & _).
  injection Hs as <-. by exists i', l.
Defined.

Example repeated_label_kept_twice :
  label_cell example_repeated = Ok example_repeated_labelled ∧
  example_repeated_labelled
  = [ {[ "Text" := VStr "twice"; "Issue" := VList ["A"; "A"] ]} ].
Proof. split; vm_compute; reflexivity. Qed.

(** X3. The label cell cannot be run twice: it rewrites the rows in place,
    so on the rows it has left behind (at least one) it raises
    [AttributeError], a list having no [split]. *)
Theorem label_cell_not_rerunnable (recs recs1 : list (gmap string value)) :
  label_cell recs = Ok recs1 →
  recs ≠ [] →
  label_cell recs1 = Raise AttributeError.
Proof.
  intros Hlab Hne. pose proof (label_cell_labelled _ _ Hlab) as Hall.
  apply mapM_Ok in Hlab. destruct Hlab as [|i i' recs recs1 _ _]; [done|].
  apply Forall_cons in Hall as [[l Hl] _].
  assert (label_row i' = Raise AttributeError) as Hrow
    by (unfold label_row, getitem; by rewrite Hl).
  unfold label_cell.
  change (mapM label_row (i' :: recs1))
    with (y ← label_row i'; k ← mapM label_row recs1; mret (y :: k)).
  by rewrite Hrow.
Qed.

Lemma label_cell_not_rerunnable_witness :
  label_cell example_labelled = Raise AttributeError.
Proof.
  apply (label_cell_not_rerunnable example_recs); [|discriminate].
  vm_compute. reflexivity.
Defined.

(** ** Cutting a field and joining the pieces *)

Lemma join_cons_cons (sep t t2 : string) (ts : list string) :
  join sep (t :: t2 :: ts) = t +:+ sep +:+ join sep (t2 :: ts).
Proof. done. Qed.

Lemma split_cons_sep (sep : ascii) (s : string) :
  split sep (String sep s) = "" :: split sep s.
Proof. cbn [split]. by rewrite Ascii.eqb_refl. Qed.

Lemma split_cons_other (sep c : ascii) (s : string) :
  c ≠ sep →
  ∃ t ts, split sep s = t :: ts ∧ split sep (String c s) = String c t :: ts.
Proof.
  intros Hc. cbn [split]. destruct (Ascii.eqb_spec c sep); [done|].
  destruct (split sep s) as [|t ts] eqn:Hs; [by apply split_nonempty in Hs|].
  by exists t, ts.
Qed.

(** X4. Cutting loses nothing: joining the pieces of [s.split(sep)] with
    [sep] gives [s] back; there is one piece more than there are separators
    in [s], and no piece holds the separator. *)
Theorem join_split (sep : ascii) (s : string) :
  join (String sep "") (split sep s) = s ∧
  length (split sep s)
  = S (length (filter (fun c => c = sep) (String.list_ascii_of_string s))) ∧
  Forall (fun t => sep ∉ String.list_ascii_of_string t) (split sep s).
Proof.
  induction s as [|c s (IHjoin & IHlen & IHno)].
  - split; [done|]. split; [done|]. repeat constructor. apply not_elem_of_nil.
  - cbn [String.list_ascii_of_string]. rewrite filter_cons.
    destruct (decide (c = sep)) as [->|Hc].
    + rewrite split_cons_sep. split; [|split].
      * destruct (split sep s) as [|t ts] eqn:Hs; [by apply split_nonempty in Hs|].
        rewrite join_cons_cons, IHjoin. done.
      * cbn [length]. by rewrite IHlen.
      * constructor; [apply not_elem_of_nil|done].
    + destruct (split_cons_other sep c s Hc) as (t & ts & Hs & ->).
      rewrite Hs in IHjoin, IHlen, IHno. split; [|split].
      * rewrite <-IHjoin. by destruct ts.
      * cbn [length] in *. done.
      * apply Forall_cons in IHno as [Ht Hts]. constructor; [|done].
        cbn [String.list_ascii_of_string]. rewrite not_elem_of_cons.
        split; [congruence|done].
Qed.

(** ** The drop of unlabelled rows: failure, running it again *)

Lemma rec_sub_Raise (recs : list (gmap string value)) (e : exn) :
  rec_sub recs = Raise e →
  e = KeyError "Issue" ∧ Exists (fun i => i !! "Issue" = None) recs.
Proof.
  induction recs as [|i recs IH]; cbn [rec_sub]; [done|].
  unfold getitem. destruct (i !! "Issue") as [v|] eqn:Hi; cbn [mbind result_bind].
  - destruct (rec_sub recs) as [rest|e'] eqn:Hrest; cbn [mbind result_bind];
      [done|].
    intros [= <-]. destruct (IH eq_refl) as [-> Hex].
    split; [done|]. by apply Exists_cons_tl.
  - intros [= <-]. split; [done|]. by apply Exists_cons_hd.
Qed.

Lemma rec_sub_missing_key (recs : list (gmap string value)) :
  Exists (fun i => i !! "Issue" = None) recs →
  rec_sub recs = Raise (KeyError "Issue").
Proof.
  intros Hex. destruct (rec_sub recs) as [kept|e] eqn:Hsub.
  - apply rec_sub_Ok in Hsub as [Hall _].
    apply Exists_exists in Hex as (i & Hi & Hnone).
    apply (proj1 (Forall_forall _ _) Hall) in Hi as [v Hv]. congruence.
  - by apply rec_sub_Raise in Hsub as [-> _].
Qed.

(** X5. The drop of unlabelled rows raises exactly when some row has no
    [Issue] column, and then it is [KeyError] for that column. *)
Theorem rec_sub_raises_iff (recs : list (gmap string value)) (e : exn) :
  rec_sub recs = Raise e ↔
  e = KeyError "Issue" ∧ Exists (fun i => i !! "Issue" = None) recs.
Proof.
  split; [apply rec_sub_Raise|]. intros [-> Hex]. by apply rec_sub_missing_key.
Qed.

(** X6. Dropping is idempotent: on the rows it has kept, the drop keeps
    all of them; and it never returns more rows than it was given. *)
Theorem rec_sub_idempotent (recs kept : list (gmap string value)) :
  rec_sub recs = Ok kept →
  rec_sub kept = Ok kept ∧ (length kept ≤ length recs)%nat.
Proof.
  intros Hsub. pose proof Hsub as [Hall Hkept]%rec_sub_Ok.
  split; [|rewrite Hkept; apply length_filter].
  destruct (rec_sub_total kept) as [kept' Hsub'].
  { rewrite Hkept. apply Forall_forall. intros i [_ Hi]%list_elem_of_filter.
    by apply (proj1 (Forall_forall _ _) Hall). }
  rewrite Hsub'. f_equal. apply rec_sub_Ok in Hsub' as [_ ->].
  rewrite Hkept. apply list_filter_filter_l. done.
Qed.

Lemma rec_sub_idempotent_witness :
  rec_sub example_kept = Ok example_kept.
Proof.
  apply (rec_sub_idempotent example_labelled). vm_compute. reflexivity.
Defined.

(** ** From the rows to the text and label arrays *)

(** X7. When the cells up to the extraction of [text] and [labels]
    complete, at least one row was kept, the two arrays are as long as the
    kept rows, and position by position they come from the same row: the
    text is that row's [Text] (a missing value if it has none) and the
    label entry is that row's label list, which is not empty. *)
Theorem text_and_labels_aligned
    (recs : list (gmap string value)) (text labels : list value) :
  load_and_preprocess recs = Ok (text, labels) →
  ∃ recs1 kept,
    label_cell recs = Ok recs1 ∧ rec_sub recs1 = Ok kept ∧ kept ≠ [] ∧
    length text = length kept ∧ length labels = length kept ∧
    ∀ (k : nat) (i : gmap string value), kept !! k = Some i →
      text !! k = Some (default VNone (i !! "Text")) ∧
      ∃ l, l ≠ [] ∧ i !! "Issue" = Some (VList l) ∧
           labels !! k = Some (VList l).
Proof.
  unfold load_and_preprocess.
  intros (recs1 & Hlab & Hload)%bind_Ok.
  apply bind_Ok in Hload as (kept & Hsub & Hload).
  apply bind_Ok in Hload as (text' & [Hne ->]%column_Ok & Hload).
  apply bind_Ok in Hload as (labels' & [_ ->]%column_Ok & [= <- <-]).
  exists recs1, kept. rewrite !length_fmap.
  do 5 (split; [done|]). intros k i Hk. split.
  - rewrite list_lookup_fmap. by rewrite Hk.
  - pose proof (label_cell_labelled _ _ Hlab) as Hall.
    pose proof Hsub as [_ Hkept]%rec_sub_Ok.
    assert (i ∈ filter labelled recs1) as [Hl Hi]%list_elem_of_filter
      by (rewrite <-Hkept; by eapply list_elem_of_lookup_2).
    destruct (proj1 (Forall_forall _ _) Hall i Hi) as [l Hil].
    exists l. unfold labelled in Hl. rewrite Hil in Hl.
    split; [by apply truthy_VList|]. split; [done|].
    rewrite list_lookup_fmap, Hk. cbn. by rewrite Hil.
Qed.

Lemma text_and_labels_aligned_witness :
  ∃ recs1 kept,
    label_cell example_recs = Ok recs1 ∧ rec_sub recs1 = Ok kept ∧ kept ≠ [] ∧
    length [VStr "freedom of speech violation"; VStr "unfair trial"]
      = length kept.
Proof.
  destruct (text_and_labels_aligned example_recs
              [VStr "freedom of speech violation"; VStr "unfair trial"]
              [VList ["Civil and Political Rights"];
               VList ["Civil and Political Rights"; "Judicial System"]])
    as (recs1 & kept & Hlab & Hsub & Hne & Hlen & _).
  - vm_compute. reflexivity.
  - by exists recs1, kept.
Defined.

Lemma rec_sub_all_empty (recs1 : list (gmap string value)) :
  Forall (fun i => i !! "Issue" = Some (VList [])) recs1 →
  rec_sub recs1 = Ok [].
Proof.
  induction 1 as [|i recs1 Hi _ IH]; [done|].
  cbn [rec_sub]. unfold getitem. rewrite Hi, IH. done.
Qed.

Lemma keep_informative_reserved (issues : list string) :
  Forall (fun x => x = "Other" ∨ x = "General") issues →
  keep_informative issues = [].
Proof.
  unfold keep_informative. induction 1 as [|x issues Hx _ IH]; [done|].
  rewrite filter_cons_False; [done|]. intros [? ?]. by destruct Hx.
Qed.

(** X8. When every label of every row is a reserved one (also when there
    is no row at all), no row is kept, the data frame has no columns, and
    the extraction of the text raises [KeyError] for [Text]. *)
Theorem nothing_labelled_raises (recs : list (gmap string value)) :
  Forall (fun i => ∃ s, i !! "Issue" = Some (VStr s) ∧
            Forall (fun x => x = "Other" ∨ x = "General") (split "," s)) recs →
  load_and_preprocess recs = Raise (KeyError "Text") ∧
  prepare recs = Raise (KeyError "Text").
Proof.
  intros Hall.
  destruct (label_cell_total recs) as [recs1 Hlab].
  { eapply Forall_impl; [exact Hall|]. intros i (s & Hs & _). by exists s. }
  assert (rec_sub recs1 = Ok []) as Hsub.
  { apply rec_sub_all_empty. apply mapM_Ok in Hlab.
    induction Hlab as [|i i' recs recs1 Hi _ IH]; [constructor|].
    apply Forall_cons in Hall as [(s & Hs & Hres) Hall].
    constructor; [|by apply IH].
    apply label_row_Ok in Hi as (s' & Hs' & ->).
    assert (s' = s) as -> by congruence.
    rewrite lookup_insert_eq. by rewrite keep_informative_reserved. }
  assert (load_and_preprocess recs = Raise (KeyError "Text")) as Hload.
  { unfold load_and_preprocess. rewrite Hlab. cbn [mbind result_bind].
    rewrite Hsub. done. }
  split; [done|]. unfold prepare. by rewrite Hload.
Qed.

Lemma nothing_labelled_raises_witness :
  prepare [ {[ "Text" := VStr "a"; "Issue" := VStr "Other" ]};
            {[ "Text" := VStr "b"; "Issue" := VStr "General,Other" ]} ]
  = Raise (KeyError "Text").
Proof.
  apply (nothing_labelled_raises
           [ {[ "Text" := VStr "a"; "Issue" := VStr "Other" ]};
             {[ "Text" := VStr "b"; "Issue" := VStr "General,Other" ]} ]).
  repeat constructor.
  - exists "Other". split; [reflexivity|]. repeat constructor.
  - exists "General,Other". split; [reflexivity|].
    constructor; [by right|]. constructor; [by left|constructor].
Defined.

(** X17. The cells up to the extraction of [text] and [labels] complete
    exactly when every row has a string [Issue] and some row has both a
    [Text] and a label that is not reserved. *)
Theorem load_and_preprocess_Ok_iff (recs : list (gmap string value)) :
  (∃ text labels, load_and_preprocess recs = Ok (text, labels)) ↔
  Forall has_issue_string recs ∧
  Exists (fun i => is_Some (i !! "Text") ∧
                   ∃ s, i !! "Issue" = Some (VStr s) ∧
                        keep_informative (split "," s) ≠ []) recs.
Proof.
  split.
  - intros (text & labels & Hload). unfold load_and_preprocess in Hload.
    apply bind_Ok in Hload as (recs1 & Hlab & Hload).
    apply bind_Ok in Hload as (kept & Hsub & Hload).
    apply bind_Ok in Hload as (text' & Htext & _).
    split; [apply label_cell_Ok_iff; by exists recs1|].
    unfold column in Htext. case_bool_decide as Hex; [|done].
    apply Exists_exists in Hex as (i' & Hi' & Ht).
    apply rec_sub_Ok in Hsub as [_ ->].
    apply list_elem_of_filter in Hi' as [Hlabelled Hi'].
    apply list_elem_of_lookup in Hi' as [n Hn].
    apply mapM_Ok in Hlab.
    destruct (Forall2_lookup_r _ _ _ _ _ Hlab Hn) as (i & Hi & Hrow).
    apply label_row_Ok in Hrow as (s & Hs & ->).
    apply Exists_exists. exists i. split; [by eapply list_elem_of_lookup_2|].
    split; [by rewrite lookup_insert_ne in Ht|]. exists s. split; [done|].
    unfold labelled in Hlabelled. rewrite lookup_insert_eq in Hlabelled.
    by apply truthy_VList.
  - intros [Hall Hex].
    destruct (label_cell_total recs Hall) as [recs1 Hlab].
    pose proof (label_cell_labelled _ _ Hlab) as Hlists.
    destruct (rec_sub_total recs1) as [kept Hsub].
    { eapply Forall_impl; [exact Hlists|]. intros i [l Hl]. by eexists. }
    apply Exists_exists in Hex as (i & Hi & Ht & s & Hs & Hne).
    apply list_elem_of_lookup in Hi as [n Hn].
    pose proof (label_cell_lookup _ _ _ _ _ Hlab Hn Hs) as Hn1.
    pose proof (rec_sub_keeps _ _ _ _ _ Hsub Hn1 (lookup_insert_eq _ _ _) Hne)
      as Hkept.
    assert (∀ col, is_Some (<["Issue" := VList (keep_informative (split "," s))]> i !! col) →
              column col kept
              = Ok ((fun i => default VNone (i !! col)) <$> kept)) as Hcol.
    { intros col Hc. unfold column. rewrite bool_decide_eq_true_2; [done|].
      apply Exists_exists. by eexists. }
    eexists _, _. unfold load_and_preprocess.
    rewrite Hlab. cbn [mbind result_bind]. rewrite Hsub. cbn [mbind result_bind].
    rewrite (Hcol "Text") by by rewrite lookup_insert_ne.
    cbn [mbind result_bind].
    rewrite (Hcol "Issue") by (rewrite lookup_insert_eq; by eexists).
    reflexivity.
Qed.

(** ** Decoding a row and printing the report *)

Lemma decode_Ok_inv (names : list string) (label : list Z) (d : list string) :
  decode names label = Ok d →
  (length label = length names ∨ label = []) ∧
  d = fst <$> filter (fun p => snd p = 1%Z) (zip names label).
Proof. unfold decode. case_bool_decide; [|done]. by intros [= <-]. Qed.



Lemma masked_names (names : list string) (label : list Z) :
  length label = length names →
  length (filter (fun p : string * Z => snd p = 1%Z) (zip names label))
  = length (filter (fun b => b = 1%Z) label) ∧
  ∀ name, name ∈ fst <$> filter (fun p : string * Z => snd p = 1%Z) (zip names label)
          ↔ ∃ k : nat, names !! k = Some name ∧ label !! k = Some 1%Z.
Proof.
  revert label. induction names as [|c names IH]; intros [|b label] Hlen;
    try discriminate.
  - split; [done|]. intros name. split.
    + by intros ?%not_elem_of_nil.
    + by intros ([|?] & ? & ?).
  - injection Hlen as Hlen. destruct (IH label Hlen) as [IHlen IHin].
    cbn [zip zip_with]. rewrite !filter_cons. cbn [snd]. split.
    + destruct (decide (b = 1%Z)); cbn [length]; by rewrite IHlen.
    + intros name. destruct (decide (b = 1%Z)) as [->|Hb].
      * rewrite fmap_cons, elem_of_cons, IHin. cbn [fst]. split.
        -- intros [->|(k & ? & ?)]; [by exists 0%nat|by exists (S k)].
        -- intros ([|k] & Hn & Hl); [left; by injection Hn|right; by exists k].
      * rewrite IHin. split.
        -- intros (k & ? & ?). by exists (S k).
        -- intros ([|k] & Hn & Hl); [by injection Hl|by exists k].
Qed.

(** X9. Decoding an indicator row of the right width returns the names at
    the positions that hold 1, in the order of the names: as many as there
    are 1s, and nothing else. *)
Theorem decode_names_the_ones (names : list string) (label : list Z) :
  length label = length names →
  ∃ d, decode names label = Ok d ∧
       d `sublist_of` names ∧
       length d = length (filter (fun b => b = 1%Z) label) ∧
       ∀ name, name ∈ d ↔
               ∃ k : nat, names !! k = Some name ∧ label !! k = Some 1%Z.
Proof.
  intros Hlen. eexists. split.
  { unfold decode. by rewrite bool_decide_eq_true_2 by by left. }
  destruct (masked_names names label Hlen) as [Hcount Hin].
  split; [|split].
  - rewrite <-(fst_zip names label) at 2 by lia.
    apply fmap_sublist, sublist_filter.
  - by rewrite length_fmap.
  - done.
Qed.

Lemma decode_names_the_ones_witness :
  ∃ d, decode ["a"; "b"; "c"] [1; 0; 1]%Z = Ok d ∧
       d `sublist_of` ["a"; "b"; "c"] ∧ length d = 2%nat.
Proof.
  destruct (decode_names_the_ones ["a"; "b"; "c"] [1; 0; 1]%Z)
    as (d & Hd & Hsub & Hlen & _); [reflexivity|].
  exists d. split; [exact Hd|]. split; [exact Hsub|exact Hlen].
Defined.




(** ** More on the best grid-search entry *)

Lemma best_of_Ok {P : Type} (grid_scores_ : list (P * Q * list Q)) p s :
  best_of grid_scores_ = Ok (p, s) →
  (∃ f, (p, s, f) ∈ grid_scores_) ∧
  ∀ x, x ∈ grid_scores_ → (snd (fst x) <= s)%Q.
Proof.
  destruct grid_scores_ as [|x rest]; [done|].
  unfold best_of. cbn [py_max mbind result_bind].
  destruct (max_from_first (fun x => snd (fst x)) x rest) as (k & Hk & _ & Hmax).
  destruct (max_from (fun x => snd (fst x)) x rest) as [[bp sc] f].
  intros [= <- <-]. split; [|done]. exists f. by eapply list_elem_of_lookup_2.
Qed.

Lemma best_of_nonempty {P : Type} (grid_scores_ : list (P * Q * list Q)) :
  grid_scores_ ≠ [] → ∃ p s, best_of grid_scores_ = Ok (p, s).
Proof.
  destruct grid_scores_ as [|x rest]; [done|]. intros _.
  unfold best_of. cbn [py_max mbind result_bind].
  destruct (max_from (fun x => snd (fst x)) x rest) as [[bp sc] f].
  by exists bp, sc.
Qed.

(** X11. The best score does not depend on the order of the grid-search
    entries: on any reordering of the list the selection succeeds with an
    equal score (the parameters may differ when scores tie). *)
Theorem best_score_order_independent {P : Type}
    (grid_scores_ other : list (P * Q * list Q)) p s :
  grid_scores_ ≡ₚ other →
  best_of grid_scores_ = Ok (p, s) →
  ∃ p' s', best_of other = Ok (p', s') ∧ (s' == s)%Q.
Proof.
  intros Hperm Hbest.
  destruct (best_of_Ok _ _ _ Hbest) as [[f Hin] Hmax].
  destruct (best_of_nonempty other) as (p' & s' & Hbest').
  { intros ->. apply Permutation_nil_r in Hperm. by subst. }
  exists p', s'. split; [done|].
  destruct (best_of_Ok _ _ _ Hbest') as [[f' Hin'] Hmax'].
  apply Qle_antisym.
  - apply (Hmax (p', s', f')). by rewrite Hperm.
  - apply (Hmax' (p, s, f)). by rewrite <-Hperm.
Qed.

Lemma best_score_order_independent_witness :
  ∃ p' s', best_of (reverse example_grid_scores) = Ok (p', s') ∧
           (s' == 3 # 4)%Q.
Proof.
  apply (best_score_order_independent example_grid_scores
           (reverse example_grid_scores) "b").
  - by rewrite reverse_Permutation.
  - reflexivity.
Defined.

Example best_parameters_depend_on_order :
  best_of example_grid_scores = Ok ("b", 3 # 4) ∧
  best_of (reverse example_grid_scores) = Ok ("c", 3 # 4).
Proof. split; reflexivity. Qed.

Lemma max_from_app {A} (key : A → Q) (best : A) (l1 l2 : list A) :
  max_from key best (l1 ++ l2) = max_from key (max_from key best l1) l2.
Proof.
  revert best. induction l1 as [|x l1 IH]; intros best; [done|].
  cbn [app max_from]. apply IH.
Qed.

Lemma max_from_not_greater {A} (key : A → Q) (best : A) (l : list A) :
  Forall (fun x => key x <= key best)%Q l → max_from key best l = best.
Proof.
  induction 1 as [|x l Hx _ IH]; [done|]. cbn [max_from].
  destruct (Qlt_le_dec (key best) (key x)) as [Hlt|_]; [|done].
  exfalso. by apply (Qlt_not_le _ _ Hlt).
Qed.

(** X12. Entries that come later and whose score is not greater than the
    best one do not change the selection: ties go to the earlier entry. *)
Theorem best_of_unchanged_by_later_not_greater {P : Type}
    (grid_scores_ later : list (P * Q * list Q)) p s :
  best_of grid_scores_ = Ok (p, s) →
  Forall (fun x => snd (fst x) <= s)%Q later →
  best_of (grid_scores_ ++ later) = Ok (p, s).
Proof.
  destruct grid_scores_ as [|x rest]; [done|].
  unfold best_of. cbn [app py_max mbind result_bind].
  rewrite max_from_app.
  destruct (max_from (fun x => snd (fst x)) x rest) as [[bp sc] f] eqn:Hm.
  intros [= <- <-] Hlater. by rewrite max_from_not_greater.
Qed.

Lemma best_of_unchanged_by_later_not_greater_witness :
  best_of (example_grid_scores ++ [("d", 3 # 4, []); ("e", 1 # 4, [])])
  = Ok ("b", 3 # 4).
Proof.
  apply best_of_unchanged_by_later_not_greater; [reflexivity|].
  repeat constructor; discriminate.
Defined.

(** ** Printing the best parameters *)





(** ** More on the mean agreement *)

Lemma array_eq_Ok (predicted y_test : list (list Z)) (cells : list bool) :
  array_eq predicted y_test = Ok cells →
  length <$> predicted = length <$> y_test ∧
  cells = mjoin (zip_with (zip_with Z.eqb) predicted y_test).
Proof. unfold array_eq. case_bool_decide; [|done]. by intros [= <-]. Qed.

Lemma same_shape_cells (a b : list (list Z)) :
  length <$> a = length <$> b →
  length (mjoin (zip_with (zip_with Z.eqb) a b)) = length (mjoin b) ∧
  (Forall (fun c => c = true) (mjoin (zip_with (zip_with Z.eqb) a b)) → a = b) ∧
  (Forall2 (Forall2 (fun x y => x ≠ y)) a b →
   Forall (fun c => c = false) (mjoin (zip_with (zip_with Z.eqb) a b))).
Proof.
  revert b. induction a as [|r a IH]; intros [|r' b] Hshape; try discriminate.
  - split; [done|]. split; [done|]. constructor.
  - injection Hshape as Hr Hshape. destruct (IH b Hshape) as (IHlen & IHeq & IHne).
    cbn [zip_with]. change (mjoin (?x :: ?l)) with (x ++ mjoin l).
    assert (length (zip_with Z.eqb r r') = length r' ∧
            (Forall (fun c => c = true) (zip_with Z.eqb r r') → r = r') ∧
            (Forall2 (fun x y => x ≠ y) r r' →
             Forall (fun c => c = false) (zip_with Z.eqb r r')))
      as (Hlen & Heq & Hne).
    { clear -Hr. revert r' Hr. induction r as [|x r IHr]; intros [|y r'] Hr;
        try discriminate.
      - split; [done|]. split; [done|]. constructor.
      - injection Hr as Hr. destruct (IHr r' Hr) as (Hlen & Heq & Hne).
        cbn [zip_with]. split; [cbn [length]; by rewrite Hlen|]. split.
        + intros [Hxy%Z.eqb_eq Hall]%Forall_cons. f_equal; [done|by apply Heq].
        + intros [Hxy Hall]%Forall2_cons. constructor; [|by apply Hne].
          by apply Z.eqb_neq. }
    split; [by rewrite !length_app, Hlen, IHlen|]. split.
    + intros [Hrow Hrest]%Forall_app. f_equal; [by apply Heq|by apply IHeq].
    + intros [Hrow Hrest]%Forall2_cons. apply Forall_app.
      split; [by apply Hne|by apply IHne].
Qed.

Lemma count_le_length (cells : list bool) :
  (length (filter (fun b => b = true) cells) ≤ length cells)%nat.
Proof. apply length_filter. Qed.

Lemma np_mean_Score (cells : list bool) (q : Q) :
  np_mean cells = Score q →
  cells ≠ [] ∧
  (q == inject_Z (Z.of_nat (length (filter (fun b => b = true) cells)))
        / inject_Z (Z.of_nat (length cells)))%Q.
Proof. destruct cells; [done|]. intros [= <-]. split; [done|reflexivity]. Qed.

Lemma ratio_bounds (c n : nat) :
  (c ≤ n)%nat → (0 < n)%nat →
  (0 <= inject_Z (Z.of_nat c) / inject_Z (Z.of_nat n))%Q ∧
  (inject_Z (Z.of_nat c) / inject_Z (Z.of_nat n) <= 1)%Q ∧
  ((inject_Z (Z.of_nat c) / inject_Z (Z.of_nat n) == 1)%Q → c = n).
Proof.
  intros Hle Hn.
  assert (0 < inject_Z (Z.of_nat n))%Q as Hn'
    by (change 0%Q with (inject_Z 0); rewrite <-Zlt_Qlt; lia).
  assert (0 <= inject_Z (Z.of_nat c))%Q as Hc
    by (change 0%Q with (inject_Z 0); rewrite <-Zle_Qle; lia).
  assert (inject_Z (Z.of_nat c) <= inject_Z (Z.of_nat n))%Q as Hcn
    by (rewrite <-Zle_Qle; lia).
  split; [|split].
  - apply Qle_shift_div_l; [done|]. by rewrite Qmult_0_l.
  - apply Qle_shift_div_r; [done|]. by rewrite Qmult_1_l.
  - intros Hone.
    assert (inject_Z (Z.of_nat c) == inject_Z (Z.of_nat n))%Q as Heq.
    { rewrite <-(Qmult_1_l (inject_Z (Z.of_nat n))), <-Hone.
      unfold Qdiv. rewrite <-Qmult_assoc, (Qmult_comm (/ _)), Qmult_inv_r.
      - by rewrite Qmult_1_r.
      - intros Hz. rewrite Hz in Hn'. by apply Qlt_irrefl in Hn'. }
    apply (proj1 (inject_Z_injective _ _)) in Heq. lia.
Qed.

(** X14. The mean agreement of two arrays of the same shape is not a
    number exactly when they have no cell; otherwise it lies between 0 and
    1. *)
Theorem mean_agreement_range (predicted y_test : list (list Z)) (sc : score) :
  mean_agreement predicted y_test = Ok sc →
  match sc with
  | NaN => mjoin y_test = []
  | Score q => mjoin y_test ≠ [] ∧ (0 <= q)%Q ∧ (q <= 1)%Q
  end.
Proof.
  unfold mean_agreement. intros (cells & Hcells & [= <-])%bind_Ok.
  apply array_eq_Ok in Hcells as [Hshape ->].
  destruct (same_shape_cells _ _ Hshape) as (Hlen & _ & _).
  set (cells := mjoin (zip_with (zip_with Z.eqb) predicted y_test)) in *.
  destruct (np_mean cells) as [|q] eqn:Hmean.
  - destruct cells; [|done]. by destruct (mjoin y_test).
  - apply np_mean_Score in Hmean as [Hne Hq].
    assert (0 < length cells)%nat as Hpos by (destruct cells; [done|cbn; lia]).
    destruct (ratio_bounds _ _ (count_le_length cells) Hpos) as (H0 & H1 & _).
    split; [|split].
    + intros Hnil. rewrite Hnil in Hlen. cbn in Hlen. lia.
    + by rewrite Hq.
    + by rewrite Hq.
Qed.

Lemma mean_agreement_range_witness :
  mjoin [[1; 0]; [0; 1]]%Z ≠ [] ∧ (0 <= 3 # 4)%Q ∧ (3 # 4 <= 1)%Q.
Proof.
  apply (mean_agreement_range [[1; 0]; [1; 1]]%Z [[1; 0]; [0; 1]]%Z
           (Score (3 # 4))).
  reflexivity.
Defined.

(** X15. When the prediction differs from the ground truth in every cell
    (and there is a cell), the mean agreement is 0. *)
Theorem total_disagreement (predicted y_test : list (list Z)) :
  Forall2 (Forall2 (fun x y => x ≠ y)) predicted y_test →
  mjoin y_test ≠ [] →
  ∃ q, mean_agreement predicted y_test = Ok (Score q) ∧ (q == 0)%Q.
Proof.
  intros Hdiff.
  assert (length <$> predicted = length <$> y_test) as Hshape.
  { induction Hdiff as [|r r' a b Hr _ IH]; [done|].
    rewrite !fmap_cons, IH. f_equal. by eapply Forall2_length. }
  intros Hne.
  destruct (same_shape_cells _ _ Hshape) as (Hlen & _ & Hfalse).
  specialize (Hfalse Hdiff).
  unfold mean_agreement, array_eq. rewrite bool_decide_eq_true_2 by done.
  cbn [mbind result_bind].
  set (cells := mjoin (zip_with (zip_with Z.eqb) predicted y_test)) in *.
  assert (filter (fun b => b = true) cells = []) as Hcount.
  { clear -Hfalse. induction Hfalse as [|c cells -> _ IH]; [done|].
    by rewrite filter_cons_False. }
  destruct (np_mean cells) as [|q] eqn:Hmean.
  { destruct cells; [|done]. destruct (mjoin y_test); [done|discriminate]. }
  exists q. split; [done|]. apply np_mean_Score in Hmean as [_ ->].
  rewrite Hcount. apply Qmult_0_l.
Qed.

Lemma total_disagreement_witness :
  ∃ q, mean_agreement [[1; 0]; [1; 1]]%Z [[0; 1]; [0; 0]]%Z = Ok (Score q) ∧
       (q == 0)%Q.
Proof.
  apply total_disagreement; [|discriminate].
  repeat constructor; discriminate.
Defined.

Lemma all_counted (cells : list bool) :
  length (filter (fun b => b = true) cells) = length cells →
  Forall (fun b => b = true) cells.
Proof.
  intros Hlen. apply Forall_forall. intros b Hb.
  destruct (decide (b = true)) as [|Hnot]; [done|].
  pose proof (length_filter_lt (fun b => b = true) cells b Hb Hnot). lia.
Qed.

(** X16. Between two arrays of the same shape, a mean agreement of 1 is
    reached only by a prediction that is cell by cell the ground truth. *)
Theorem perfect_score_only_when_identical
    (predicted y_test : list (list Z)) (q : Q) :
  length predicted = length y_test →
  Forall2 (fun row row' => length row = length row') predicted y_test →
  mean_agreement predicted y_test = Ok (Score q) →
  (q == 1)%Q →
  predicted = y_test.
Proof.
  unfold mean_agreement.
  intros _ _ (cells & Hcells & [= Hmean])%bind_Ok Hone.
  apply array_eq_Ok in Hcells as [Hshape ->].
  destruct (same_shape_cells _ _ Hshape) as (_ & Heq & _). apply Heq.
  set (cells := mjoin (zip_with (zip_with Z.eqb) predicted y_test)) in *.
  apply np_mean_Score in Hmean as [Hne Hq]. apply all_counted.
  assert (0 < length cells)%nat as Hpos by (destruct cells; [done|cbn; lia]).
  destruct (ratio_bounds _ _ (count_le_length cells) Hpos) as (_ & _ & Hfull).
  apply Hfull. by rewrite <-Hq.
Qed.

Lemma perfect_score_only_when_identical_witness :
  [[1; 0]; [1; 1]]%Z = [[1; 0]; [1; 1]]%Z.
Proof.
  apply (perfect_score_only_when_identical _ _ (4 # 4));
    [reflexivity | repeat constructor | reflexivity | reflexivity].
Defined.
